(** * The events extension of remirror: dispatch of editor events

    A shallow embedding of [EventsExtension] (the TypeScript listing in
    docs/concepts/extra-attributes.md): the interaction flags, the registration
    of handlers in [onView], the click dispatch of [handleClickOn] with its
    per-event cache, and the hover / contextmenu dispatch built by
    [createMouseEventHandler].

    JavaScript values are modelled as follows.
    - An object compared by identity (a DOM event, a node type, a mark type)
      carries a key, and identity is equality of keys.
    - [undefined] / [null] is [None].
    - A thrown exception is [Throw]; code that may throw lives in [Result], and
      code that also reads or writes the extension lives in the monad [M].
    - [schema.nodes], [schema.marks] and the [WeakMap] are finite maps. *)

From stdpp Require Import base option list gmap strings.
From Stdlib Require Import ZArith Lia.

Local Open Scope Z_scope.
Local Open Scope string_scope.

(** ** Faults *)

Inductive ErrorConstant := EXTENSION.

Inductive Fault :=
| RemirrorError (code : ErrorConstant) (message : string)
| RangeError (message : string)
| TypeError (message : string).

Inductive Result (A : Type) :=
| Ok (value : A)
| Throw (fault : Fault).
Arguments Ok {A} value.
Arguments Throw {A} fault.

Definition rbind {A B} (r : Result A) (k : A -> Result B) : Result B :=
  match r with
  | Ok a => k a
  | Throw f => Throw f
  end.

(** Runs [f] over a list from left to right and stops at the first fault,
    as a [for ... of] loop whose body may throw. *)
Fixpoint rmap {A B} (f : A -> Result B) (l : list A) : Result (list B) :=
  match l with
  | [] => Ok []
  | a :: l' => rbind (f a) (fun b => rbind (rmap f l') (fun bs => Ok (b :: bs)))
  end.

(** ** The document model of the host (prosemirror-model) *)

Record NodeType := { node_type_name : string }.
Record MarkType := { mark_type_name : string }.

#[global] Instance NodeType_eq_dec : EqDecision NodeType.
Proof. solve_decision. Defined.
#[global] Instance MarkType_eq_dec : EqDecision MarkType.
Proof. solve_decision. Defined.

(** [node_key] stands for everything but the type that [Node.eq] compares
    (attributes, marks and content). *)
Record ProsemirrorNode := { node_type : NodeType; node_key : nat }.
Record Mark := { mark_type : MarkType; mark_key : nat }.

#[global] Instance ProsemirrorNode_eq_dec : EqDecision ProsemirrorNode.
Proof. solve_decision. Defined.
#[global] Instance Mark_eq_dec : EqDecision Mark.
Proof. solve_decision. Defined.

(** [node.eq(other)] *)
Definition node_eq (a b : ProsemirrorNode) : bool := bool_decide (a = b).

Record EditorSchema := {
  schema_nodes : gmap string NodeType;
  schema_marks : gmap string MarkType
}.

(** A resolved position. The host keeps the ancestors in a path array; here
    [rp_root] is the ancestor at depth 0 (the document) and [rp_path] lists,
    for the depths 1, 2, ..., the ancestor and the position before it. *)
Record ResolvedPos := {
  rp_pos : Z;
  rp_root : ProsemirrorNode;
  rp_path : list (ProsemirrorNode * Z);
  rp_nodeAfter : option ProsemirrorNode;
  rp_marks : list Mark
}.

Definition depth (rpos : ResolvedPos) : nat := length (rp_path rpos).

(** [$pos.node(d)]: the ancestor at level [d]; past the innermost ancestor the
    path array has no slot and the read gives [undefined]. *)
Definition node (rpos : ResolvedPos) (d : nat) : option ProsemirrorNode :=
  match d with
  | O => Some (rp_root rpos)
  | S k => fst <$> rp_path rpos !! k
  end.

(** [$pos.before(d)]: throws for the top level, is the position itself one
    level below the innermost ancestor, and the stored offset in between. A
    resolved position has no level beyond [depth + 1]; a read there, which the
    host leaves undefined, is given as a fault as well, and the loop of the
    extension stays within the levels 1 to [depth + 1]. *)
Definition before (rpos : ResolvedPos) (d : nat) : Result Z :=
  match d with
  | O => Throw (RangeError "There is no position before the top-level node")
  | S k =>
      if decide (d = S (depth rpos)) then Ok (rp_pos rpos)
      else match rp_path rpos !! k with
           | Some (_, b) => Ok b
           | None => Throw (RangeError "There is no position before the top-level node")
           end
  end.

Definition nodeAfter (rpos : ResolvedPos) : option ProsemirrorNode := rp_nodeAfter rpos.
Definition marks (rpos : ResolvedPos) : list Mark := rp_marks rpos.

(** [doc.resolve(pos)] throws a [RangeError] for a position outside the
    document. *)
Record EditorState := {
  schema : EditorSchema;
  doc_resolve : Z -> Result ResolvedPos
}.

(** The result of the host's hit test, [view.posAtCoords]. *)
Record EventPosition := { ep_pos : Z; ep_inside : Z }.

Record EditorView := {
  view_state : EditorState;
  posAtCoords : Z * Z -> option EventPosition
}.

(** A DOM event; [event_id] is the identity of the event object. *)
Record DomEvent := { event_id : nat; clientX : Z; clientY : Z }.

(** ** Helpers of remirror core used by the extension *)

Record NodeWithPosition := { nwp_node : option ProsemirrorNode; nwp_pos : Z }.

Record GetMarkRange := {
  range_from : Z;
  range_to : Z;
  range_mark : Mark;
  range_text : string
}.

(** Modelled from the spec: the helper [range] of remirror core is not among
    the sources. It lists the numbers from [start] to [stop], both included,
    counting down when [start] is the larger one; the chain of length
    [depth + 1] of the spec is [range (depth + 1) 1]. *)
Definition range (start stop : nat) : list nat :=
  if (start <=? stop)%nat then seq start (stop + 1 - start)
  else rev (seq stop (start + 1 - stop)).

(** Modelled from the spec: the helper [invariant] of remirror core is not
    among the sources. It halts with a descriptive fault when the value it
    checks is missing. *)
Definition invariant {A} (value : option A) (code : ErrorConstant) (message : string)
  : Result A :=
  match value with
  | Some a => Ok a
  | None => Throw (RemirrorError code message)
  end.

(** Modelled from the spec: [getPositionFromEvent] of ./events-utils is not
    among the sources. It asks the host view to resolve the coordinate of the
    event and has no result when the coordinate does not resolve. *)
Definition getPositionFromEvent (view : EditorView) (event : DomEvent)
  : option EventPosition :=
  posAtCoords view (clientX event, clientY event).

(** A node type or a mark type given by name or as the type itself
    ([string | NodeType], [string | MarkType]). *)
Inductive TypeRef (T : Type) :=
| ByName (name : string)
| ByType (type : T).
Arguments ByName {T} name.
Arguments ByType {T} type.

(** [isString(x) ? table[x] : x] *)
Definition lookupType {T} (table : gmap string T) (ref : TypeRef T) : option T :=
  match ref with
  | ByName name => table !! name
  | ByType type => Some type
  end.

(** The text of a type reference inside a template string. *)
Definition refText {T} (name_of : T -> string) (ref : TypeRef T) : string :=
  match ref with
  | ByName name => name
  | ByType type => name_of type
  end.

(** [noop] *)
Definition noop {A B} (_ : A) : Result (option B) := Ok None.

(** ** Handler states and props *)

Record ClickMarkHandlerState := {
  cm_getMark : TypeRef MarkType -> Result (option GetMarkRange);
  cm_markRanges : list GetMarkRange;
  cm_view : EditorView;
  cm_state : EditorState
}.

Record ClickHandlerState := {
  getMark : TypeRef MarkType -> Result (option GetMarkRange);
  markRanges : list GetMarkRange;
  click_view : EditorView;
  click_state : EditorState;
  click_pos : Z;
  direct : bool;
  nodeWithPosition : NodeWithPosition;
  getNode : TypeRef NodeType -> Result (option NodeWithPosition)
}.

Record NodeWithPositionAndRoot := {
  found_node : option ProsemirrorNode;
  found_pos : Z;
  isRoot : bool
}.

Record MouseEventHandlerProps := {
  props_event : DomEvent;
  props_view : EditorView;
  props_nodes : list NodeWithPosition;
  props_marks : list GetMarkRange;
  props_getMark : TypeRef MarkType -> Result (option GetMarkRange);
  props_getNode : TypeRef NodeType -> Result (option NodeWithPositionAndRoot)
}.

Record HoverEventHandlerProps := {
  hover_props : MouseEventHandlerProps;
  hovering : bool
}.

(** ** Handlers *)

(** The keys of [EventsOptions]. *)
Inductive HandlerKey :=
| Blur | Focus | Mousedown | Mouseup | Mouseenter | Mouseleave
| Click | ClickMark | Contextmenu | Hover.

#[global] Instance HandlerKey_eq_dec : EqDecision HandlerKey.
Proof. solve_decision. Defined.

(** What a handler is called with. *)
Inductive Payload :=
| FocusArgs (event : DomEvent)
| MouseArgs (event : DomEvent)
| ClickArgs (event : DomEvent) (clickState : ClickHandlerState)
| ClickMarkArgs (event : DomEvent) (clickState : ClickMarkHandlerState)
| ContextmenuArgs (props : MouseEventHandlerProps)
| HoverArgs (props : HoverEventHandlerProps).

(** [boolean | undefined | void] *)
Inductive HandlerResult := ReturnsTrue | ReturnsFalse | ReturnsUndefined.

Definition truthy (r : HandlerResult) : bool :=
  match r with
  | ReturnsTrue => true
  | _ => false
  end.

Abbreviation Handler := (Payload -> HandlerResult).

(** The [handlerKeys] of the [@extension] decorator. *)
Definition handlerKeys : list HandlerKey :=
  [Blur; Focus; Mousedown; Mouseup; Mouseenter; Mouseleave; Click; ClickMark; Contextmenu].

Record HandlerKeyOption := { earlyReturnValue : bool }.

(** The [handlerKeyOptions] of the [@extension] decorator. *)
Definition handlerKeyOptions (key : HandlerKey) : option HandlerKeyOption :=
  match key with
  | Blur => Some {| earlyReturnValue := true |}
  | Focus => Some {| earlyReturnValue := true |}
  | Mousedown => Some {| earlyReturnValue := true |}
  | Mouseleave => Some {| earlyReturnValue := true |}
  | Mouseup => Some {| earlyReturnValue := true |}
  | Click => Some {| earlyReturnValue := true |}
  | _ => None
  end.

Inductive DispatchPolicy := EarlyReturn | RunAll.

(** The policy a key is dispatched with: early return when the decorator gives
    the key an [earlyReturnValue] of [true]. *)
Definition policyOf (key : HandlerKey) : DispatchPolicy :=
  match handlerKeyOptions key with
  | Some {| earlyReturnValue := true |} => EarlyReturn
  | _ => RunAll
  end.

(** Modelled from the spec: the handler chain behind [this.options.<key>] is
    built by the extension base class of remirror core, which is not among the
    sources. Under the early-return policy the chain stops at the first handler
    whose result is truthy and the aggregate is truthy; under the run-all
    policy every handler runs and the aggregate is the disjunction of the
    results. The first component lists the results of the handlers that ran,
    in the order they ran. *)
Fixpoint callEarlyReturn (handlers : list Handler) (args : Payload)
  : list HandlerResult * bool :=
  match handlers with
  | [] => ([], false)
  | h :: rest =>
      let r := h args in
      if truthy r then ([r], true)
      else let '(rs, b) := callEarlyReturn rest args in (r :: rs, b)
  end.

Definition callRunAll (handlers : list Handler) (args : Payload)
  : list HandlerResult * bool :=
  let rs := map (fun h => h args) handlers in (rs, existsb truthy rs).

Definition callHandlers (policy : DispatchPolicy) (handlers : list Handler) (args : Payload)
  : list HandlerResult * bool :=
  match policy with
  | EarlyReturn => callEarlyReturn handlers args
  | RunAll => callRunAll handlers args
  end.

(** ** The extension *)

(** Another extension as [onView] sees it: its optional method
    [createEventHandlers], whose result is given by its entries, and whether
    its options exclude [clickHandler]. *)
Record AnyExtension := {
  extension_name : string;
  createEventHandlers : option (unit -> list (HandlerKey * Handler));
  extension_exclude_clickHandler : bool
}.

Record ExtensionStore := {
  managerSettings_exclude_clickHandler : bool;
  extensions : list AnyExtension;
  currentState : EditorState
}.

(** One call of a handler chain, as observed from outside: the key, the
    arguments, and the results of the handlers that ran. *)
Record Dispatch := {
  dispatch_key : HandlerKey;
  dispatch_args : Payload;
  dispatch_results : list HandlerResult
}.

(** The extension object together with what its plugin closes over and what it
    does to its surroundings.
    - [mousedown], [mouseover]: the two private flags.
    - [mappedHandlers]: the registered handlers, in the order they are called.
    - [eventMap]: the [WeakMap] created by [createPlugin], keyed by the
      identity of the event.
    - [documentMouseupOnce]: the one-shot [mouseup] listeners waiting on the
      document element.
    - [emptyUpdates]: the calls of [commands.emptyUpdate] so far.
    - [dispatched]: the chain calls so far, oldest first.
    - [defaultPrevented]: the events whose [preventDefault] was called. *)
Record EventsExtension := {
  mousedown : bool;
  mouseover : bool;
  mappedHandlers : list (HandlerKey * Handler);
  store : ExtensionStore;
  eventMap : gmap nat bool;
  documentMouseupOnce : nat;
  emptyUpdates : nat;
  dispatched : list Dispatch;
  defaultPrevented : list nat
}.

Definition set_mousedown (b : bool) (s : EventsExtension) : EventsExtension :=
  {| mousedown := b; mouseover := mouseover s; mappedHandlers := mappedHandlers s;
     store := store s; eventMap := eventMap s;
     documentMouseupOnce := documentMouseupOnce s; emptyUpdates := emptyUpdates s;
     dispatched := dispatched s; defaultPrevented := defaultPrevented s |}.

Definition set_mouseover (b : bool) (s : EventsExtension) : EventsExtension :=
  {| mousedown := mousedown s; mouseover := b; mappedHandlers := mappedHandlers s;
     store := store s; eventMap := eventMap s;
     documentMouseupOnce := documentMouseupOnce s; emptyUpdates := emptyUpdates s;
     dispatched := dispatched s; defaultPrevented := defaultPrevented s |}.

Definition set_mappedHandlers (hs : list (HandlerKey * Handler)) (s : EventsExtension)
  : EventsExtension :=
  {| mousedown := mousedown s; mouseover := mouseover s; mappedHandlers := hs;
     store := store s; eventMap := eventMap s;
     documentMouseupOnce := documentMouseupOnce s; emptyUpdates := emptyUpdates s;
     dispatched := dispatched s; defaultPrevented := defaultPrevented s |}.

Definition set_eventMap (m : gmap nat bool) (s : EventsExtension) : EventsExtension :=
  {| mousedown := mousedown s; mouseover := mouseover s; mappedHandlers := mappedHandlers s;
     store := store s; eventMap := m;
     documentMouseupOnce := documentMouseupOnce s; emptyUpdates := emptyUpdates s;
     dispatched := dispatched s; defaultPrevented := defaultPrevented s |}.

Definition set_documentMouseupOnce (n : nat) (s : EventsExtension) : EventsExtension :=
  {| mousedown := mousedown s; mouseover := mouseover s; mappedHandlers := mappedHandlers s;
     store := store s; eventMap := eventMap s;
     documentMouseupOnce := n; emptyUpdates := emptyUpdates s;
     dispatched := dispatched s; defaultPrevented := defaultPrevented s |}.

Definition set_emptyUpdates (n : nat) (s : EventsExtension) : EventsExtension :=
  {| mousedown := mousedown s; mouseover := mouseover s; mappedHandlers := mappedHandlers s;
     store := store s; eventMap := eventMap s;
     documentMouseupOnce := documentMouseupOnce s; emptyUpdates := n;
     dispatched := dispatched s; defaultPrevented := defaultPrevented s |}.

Definition set_dispatched (l : list Dispatch) (s : EventsExtension) : EventsExtension :=
  {| mousedown := mousedown s; mouseover := mouseover s; mappedHandlers := mappedHandlers s;
     store := store s; eventMap := eventMap s;
     documentMouseupOnce := documentMouseupOnce s; emptyUpdates := emptyUpdates s;
     dispatched := l; defaultPrevented := defaultPrevented s |}.

Definition set_defaultPrevented (l : list nat) (s : EventsExtension) : EventsExtension :=
  {| mousedown := mousedown s; mouseover := mouseover s; mappedHandlers := mappedHandlers s;
     store := store s; eventMap := eventMap s;
     documentMouseupOnce := documentMouseupOnce s; emptyUpdates := emptyUpdates s;
     dispatched := dispatched s; defaultPrevented := l |}.

(** *** The monad of the methods: state of the extension, and faults.
    The state survives a fault, as the fields of a JavaScript object do. *)

Definition M (A : Type) : Type := EventsExtension -> Result A * EventsExtension.

Definition ret {A} (a : A) : M A := fun s => (Ok a, s).

Definition bind {A B} (m : M A) (k : A -> M B) : M B :=
  fun s =>
    match m s with
    | (Ok a, s') => k a s'
    | (Throw f, s') => (Throw f, s')
    end.

Definition lift {A} (r : Result A) : M A := fun s => (r, s).
Definition read {A} (f : EventsExtension -> A) : M A := fun s => (Ok (f s), s).
Definition modify (f : EventsExtension -> EventsExtension) : M unit := fun s => (Ok tt, f s).

Declare Scope events_scope.
Delimit Scope events_scope with events.
Notation "'let*' x ':=' m 'in' k" := (bind m (fun x => k))
  (at level 10, x name, m at level 100, k at level 200) : events_scope.
Notation "m '>>' k" := (bind m (fun _ => k))
  (at level 100, k at level 200, right associativity) : events_scope.
Local Open Scope events_scope.

Definition handlersFor (key : HandlerKey) (registered : list (HandlerKey * Handler))
  : list Handler :=
  map snd (List.filter (fun entry => bool_decide (fst entry = key)) registered).

(** [this.options.<key>(...args)]: runs the chain of the key with its policy
    and records the call. *)
Definition options (key : HandlerKey) (args : Payload) : M bool :=
  fun s =>
    let '(results, aggregate) :=
      callHandlers (policyOf key) (handlersFor key (mappedHandlers s)) args in
    (Ok aggregate,
     set_dispatched
       (dispatched s ++
        [{| dispatch_key := key; dispatch_args := args; dispatch_results := results |}]) s).

(** Modelled from the spec: [addHandler] of the extension base class is not
    among the sources. The spec calls handlers by ascending priority and,
    among handlers of one priority, in the order of registration. [onView]
    passes no priority, and the registry here holds the handlers of that one
    default priority, in the order of registration; a handler registered with
    another priority is outside of it. *)
Definition addHandler (key : HandlerKey) (handler : Handler) : M unit :=
  modify (fun s => set_mappedHandlers (mappedHandlers s ++ [(key, handler)]) s).

Fixpoint forEach {A} (l : list A) (body : A -> M unit) : M unit :=
  match l with
  | [] => ret tt
  | a :: l' => body a >> forEach l' body
  end.

Definition onView : M unit :=
  let* st := read store in
  if managerSettings_exclude_clickHandler st then ret tt
  else
    forEach (extensions st) (fun extension =>
      match createEventHandlers extension with
      | None => ret tt
      | Some create =>
          if extension_exclude_clickHandler extension then ret tt
          else
            let eventHandlers := create tt in
            forEach eventHandlers (fun '(key, handler) => addHandler key handler)
      end).

(** What [onView] has to register for an extension, in the words of the spec:
    every handler the extension exposes through [createEventHandlers], and
    none when it lacks the method or its options exclude [clickHandler]. *)
Definition exposedHandlers (extension : AnyExtension) : list (HandlerKey * Handler) :=
  match createEventHandlers extension with
  | None => []
  | Some create => if extension_exclude_clickHandler extension then [] else create tt
  end.

(** *** The interaction flags *)

Definition isInteracting (s : EventsExtension) : bool := mousedown s && mouseover s.

Definition endMouseover : M unit :=
  let* down := read mousedown in
  if negb down then ret tt
  else
    modify (set_mousedown false) >>
    modify (fun s => set_emptyUpdates (S (emptyUpdates s)) s).

Definition startMouseover : M unit :=
  modify (set_mouseover true) >>
  let* down := read mousedown in
  if down then ret tt
  else
    modify (set_mousedown true) >>
    modify (fun s => set_documentMouseupOnce (S (documentMouseupOnce s)) s).

(** *** The plugin *)

Section Plugin.

(** [getMarkRange] of remirror core is not among the sources; the plugin only
    passes its result on, so it is taken as given. *)
Variable getMarkRange : ResolvedPos -> MarkType -> option GetMarkRange.

(** The loop that collects a range for every mark at the position. *)
Fixpoint collectMarkRanges (rpos : ResolvedPos) (ms : list Mark) : list GetMarkRange :=
  match ms with
  | [] => []
  | m :: rest =>
      match getMarkRange rpos (mark_type m) with
      | Some r => r :: collectMarkRanges rpos rest
      | None => collectMarkRanges rpos rest
      end
  end.

(** [ranges.find((range) => range.mark.type === type)] *)
Definition findMarkRange (ranges : list GetMarkRange) (type : MarkType)
  : option GetMarkRange :=
  List.find (fun r => bool_decide (mark_type (range_mark r) = type)) ranges.

Definition markMessage (markType : TypeRef MarkType) : string :=
  "The mark " ++ refText (fun _ => "[object Object]") markType
  ++ " being checked does not exist within the editor schema.".

(** The [getMark] that checks the schema and then searches [ranges]; the click
    state and the mouse props each build one over their own list. *)
Definition getMarkIn (sch : EditorSchema) (ranges : list GetMarkRange)
  (markType : TypeRef MarkType) : Result (option GetMarkRange) :=
  rbind (invariant (lookupType (schema_marks sch) markType) EXTENSION (markMessage markType))
    (fun type => Ok (findMarkRange ranges type)).

Record CreateClickMarkStateProps := {
  ccm_handled : bool;
  ccm_rpos : ResolvedPos;
  ccm_view : EditorView;
  ccm_state : EditorState
}.

Definition createClickMarkState (props : CreateClickMarkStateProps) : ClickMarkHandlerState :=
  let handled := ccm_handled props in
  let view := ccm_view props in
  let rpos := ccm_rpos props in
  let state := ccm_state props in
  let clickState :=
    {| cm_getMark := noop; cm_markRanges := []; cm_view := view; cm_state := state |} in
  if handled then clickState
  else
    let ranges := collectMarkRanges rpos (marks rpos) in
    {| cm_getMark := getMarkIn (schema state) ranges;
       cm_markRanges := ranges;
       cm_view := view;
       cm_state := state |}.

Definition handleClickOn (view : EditorView) (pos : Z) (nd : ProsemirrorNode)
  (nodePos : Z) (event : DomEvent) (direct_ : bool) : M bool :=
  let* state := read (fun s => currentState (store s)) in
  let sch := schema state in
  let* rpos := lift (doc_resolve state pos) in
  let* handled := read (fun s => bool_decide (is_Some (eventMap s !! event_id event))) in
  let baseState :=
    createClickMarkState
      {| ccm_handled := handled; ccm_rpos := rpos; ccm_view := view; ccm_state := state |} in
  let* returnValue :=
    (if negb handled
     then let* r := options ClickMark (ClickMarkArgs event baseState) in ret (r || false)
     else ret false) in
  let clickState :=
    {| getMark := cm_getMark baseState;
       markRanges := cm_markRanges baseState;
       click_view := cm_view baseState;
       click_state := cm_state baseState;
       click_pos := pos;
       direct := direct_;
       nodeWithPosition := {| nwp_node := Some nd; nwp_pos := nodePos |};
       getNode := fun nodeType =>
         rbind (invariant (lookupType (schema_nodes sch) nodeType) EXTENSION
                  "The node being checked does not exist")
           (fun type =>
              Ok (if decide (type = node_type nd)
                  then Some {| nwp_node := Some nd; nwp_pos := nodePos |}
                  else None)) |} in
  modify (fun s => set_eventMap (<[event_id event := true]> (eventMap s)) s) >>
  let* r := options Click (ClickArgs event clickState) in
  ret (r || returnValue).

(** [nodes.find(({ node }) => node.type === type)]: the callback reads the
    type of the node of every entry it visits. *)
Fixpoint findNode (nodes : list NodeWithPosition) (type : NodeType)
  : Result (option NodeWithPosition) :=
  match nodes with
  | [] => Ok None
  | entry :: rest =>
      match nwp_node entry with
      | None => Throw (TypeError "Cannot read properties of undefined (reading 'type')")
      | Some n =>
          if decide (node_type n = type) then Ok (Some entry) else findNode rest type
      end
  end.

(** [!!nodes[0]?.node.eq(nodeWithPos.node)] *)
Definition isRootOf (nodes : list NodeWithPosition) (nodeWithPos : NodeWithPosition)
  : Result bool :=
  match nodes !! 0%nat with
  | None => Ok false
  | Some first =>
      match nwp_node first, nwp_node nodeWithPos with
      | Some n0, Some n => Ok (node_eq n0 n)
      | None, _ => Throw (TypeError "Cannot read properties of undefined (reading 'eq')")
      | Some _, None => Throw (TypeError "Cannot read properties of undefined (reading 'type')")
      end
  end.

Definition getNodeIn (sch : EditorSchema) (nodes : list NodeWithPosition)
  (nodeType : TypeRef NodeType) : Result (option NodeWithPositionAndRoot) :=
  rbind (invariant (lookupType (schema_nodes sch) nodeType) EXTENSION
           "The node being checked does not exist")
    (fun type =>
       rbind (findNode nodes type)
         (fun found =>
            match found with
            | None => Ok None
            | Some nodeWithPos =>
                rbind (isRootOf nodes nodeWithPos)
                  (fun root =>
                     Ok (Some {| found_node := nwp_node nodeWithPos;
                                 found_pos := nwp_pos nodeWithPos;
                                 isRoot := root |}))
            end)).

(** The body of the loop that populates [nodes]. *)
Definition nodeEntry (rpos : ResolvedPos) (index : nat) : Result NodeWithPosition :=
  let n :=
    match (depth rpos <? index)%nat, nodeAfter rpos with
    | true, Some after => Some after
    | _, _ => node rpos index
    end in
  rbind (before rpos index) (fun b => Ok {| nwp_node := n; nwp_pos := b |}).

Definition preventDefault (event : DomEvent) : M unit :=
  modify (fun s => set_defaultPrevented (defaultPrevented s ++ [event_id event]) s).

Definition createMouseEventHandler (fn : MouseEventHandlerProps -> M bool)
  (view : EditorView) (event : DomEvent) : M bool :=
  match getPositionFromEvent view event with
  | None => ret false
  | Some eventPosition =>
      let pos := ep_pos eventPosition in
      let inside := ep_inside eventPosition in
      let* rpos := lift (doc_resolve (view_state view) pos) in
      let currentNodeDepth := (depth rpos + 1)%nat in
      let* nodes :=
        (if inside >? -1 then lift (rmap (nodeEntry rpos) (range currentNodeDepth 1))
         else ret []) in
      let marks_ := if inside >? -1 then collectMarkRanges rpos (marks rpos) else [] in
      let* isCaptured :=
        fn {| props_event := event;
              props_view := view;
              props_nodes := nodes;
              props_marks := marks_;
              props_getMark := getMarkIn (schema (view_state view)) marks_;
              props_getNode := getNodeIn (schema (view_state view)) nodes |} in
      (if isCaptured then preventDefault event else ret tt) >>
      ret isCaptured
  end.

(** The entries of [handleDOMEvents]. *)

Definition handleDOMEvents_focus (event : DomEvent) : M bool :=
  let* r := options Focus (FocusArgs event) in ret (r || false).

Definition handleDOMEvents_blur (event : DomEvent) : M bool :=
  let* r := options Blur (FocusArgs event) in ret (r || false).

Definition handleDOMEvents_mousedown (event : DomEvent) : M bool :=
  startMouseover >>
  let* r := options Mousedown (MouseArgs event) in ret (r || false).

Definition handleDOMEvents_mouseup (event : DomEvent) : M bool :=
  endMouseover >>
  let* r := options Mouseup (MouseArgs event) in ret (r || false).

Definition handleDOMEvents_mouseleave (event : DomEvent) : M bool :=
  modify (set_mouseover false) >>
  let* r := options Mouseleave (MouseArgs event) in ret (r || false).

Definition handleDOMEvents_mouseenter (event : DomEvent) : M bool :=
  modify (set_mouseover true) >>
  let* r := options Mouseenter (MouseArgs event) in ret (r || false).

Definition handleDOMEvents_mouseout : EditorView -> DomEvent -> M bool :=
  createMouseEventHandler (fun props =>
    let* r := options Hover (HoverArgs {| hover_props := props; hovering := false |}) in
    ret (r || false)).

Definition handleDOMEvents_mouseover : EditorView -> DomEvent -> M bool :=
  createMouseEventHandler (fun props =>
    let* r := options Hover (HoverArgs {| hover_props := props; hovering := true |}) in
    ret (r || false)).

Definition handleDOMEvents_contextmenu : EditorView -> DomEvent -> M bool :=
  createMouseEventHandler (fun props =>
    let* r := options Contextmenu (ContextmenuArgs props) in
    ret (r || false)).

(** ** The host

    What the browser and the editor view do with the plugin: the view calls
    [handleClickOn] once for every node from the clicked one outwards, with
    the same event object; a [mouseup] inside the editor reaches the handler
    of the editor and then, bubbling, the listeners of the document element;
    a [mouseup] elsewhere on the page reaches only the latter. *)

Record ClickTarget := {
  target_node : ProsemirrorNode;
  target_pos : Z;
  target_direct : bool
}.

Fixpoint handleClickOnEach (view : EditorView) (pos : Z) (event : DomEvent)
  (targets : list ClickTarget) : M (list bool) :=
  match targets with
  | [] => ret []
  | t :: rest =>
      let* r := handleClickOn view pos (target_node t) (target_pos t) event (target_direct t) in
      let* rs := handleClickOnEach view pos event rest in
      ret (r :: rs)
  end.

Fixpoint times (n : nat) (m : M unit) : M unit :=
  match n with
  | O => ret tt
  | S k => m >> times k m
  end.

(** The one-shot listeners added by [startMouseover] run once and are gone. *)
Definition documentElement_mouseup : M unit :=
  let* waiting := read documentMouseupOnce in
  modify (set_documentMouseupOnce 0) >>
  times waiting endMouseover.

Inductive PageEvent :=
| FocusEditor (event : DomEvent)
| BlurEditor (event : DomEvent)
| MousedownInside (event : DomEvent)
| MouseupInside (event : DomEvent)
| MouseupOutside (event : DomEvent)
| MouseleaveEditor (event : DomEvent)
| MouseenterEditor (event : DomEvent)
| MouseoutInside (view : EditorView) (event : DomEvent)
| MouseoverInside (view : EditorView) (event : DomEvent)
| ContextmenuInside (view : EditorView) (event : DomEvent)
| ClickInside (view : EditorView) (pos : Z) (event : DomEvent) (targets : list ClickTarget).

Definition deliver (ev : PageEvent) : M bool :=
  match ev with
  | FocusEditor event => handleDOMEvents_focus event
  | BlurEditor event => handleDOMEvents_blur event
  | MousedownInside event => handleDOMEvents_mousedown event
  | MouseupInside event =>
      let* r := handleDOMEvents_mouseup event in
      documentElement_mouseup >> ret r
  | MouseupOutside event => documentElement_mouseup >> ret false
  | MouseleaveEditor event => handleDOMEvents_mouseleave event
  | MouseenterEditor event => handleDOMEvents_mouseenter event
  | MouseoutInside view event => handleDOMEvents_mouseout view event
  | MouseoverInside view event => handleDOMEvents_mouseover view event
  | ContextmenuInside view event => handleDOMEvents_contextmenu view event
  | ClickInside view pos event targets =>
      let* rs := handleClickOnEach view pos event targets in
      ret (existsb id rs)
  end.

(** The extension after a method ran, whatever the outcome. *)
Definition after {A} (m : M A) (s : EventsExtension) : EventsExtension := snd (m s).

End Plugin.

(** A freshly constructed extension: both flags are initialised to [false]. *)
Definition newExtension (st : ExtensionStore) : EventsExtension :=
  {| mousedown := false; mouseover := false; mappedHandlers := [];
     store := st; eventMap := ∅; documentMouseupOnce := 0; emptyUpdates := 0;
     dispatched := []; defaultPrevented := [] |}.

(** The states an extension goes through: construction, registration of
    handlers, and the delivery of page events. *)
Inductive reachable (getMarkRange : ResolvedPos -> MarkType -> option GetMarkRange)
  : EventsExtension -> Prop :=
| reachable_new st : reachable getMarkRange (newExtension st)
| reachable_onView s :
    reachable getMarkRange s -> reachable getMarkRange (after onView s)
| reachable_addHandler s key handler :
    reachable getMarkRange s -> reachable getMarkRange (after (addHandler key handler) s)
| reachable_deliver s ev :
    reachable getMarkRange s -> reachable getMarkRange (after (deliver getMarkRange ev) s).

(** ** Reading the record of chain calls *)

Definition callsOf (key : HandlerKey) (l : list Dispatch) : list Dispatch :=
  List.filter (fun d => bool_decide (dispatch_key d = key)) l.

(** The [direct] flag of every call of the click chain, oldest first. *)
Fixpoint clickDirects (l : list Dispatch) : list bool :=
  match l with
  | [] => []
  | d :: rest =>
      match dispatch_key d, dispatch_args d with
      | Click, ClickArgs _ st => direct st :: clickDirects rest
      | _, _ => clickDirects rest
      end
  end.

(** The states handed to the click chain, oldest first. *)
Fixpoint clickStates (l : list Dispatch) : list ClickHandlerState :=
  match l with
  | [] => []
  | d :: rest =>
      match dispatch_key d, dispatch_args d with
      | Click, ClickArgs _ st => st :: clickStates rest
      | _, _ => clickStates rest
      end
  end.

(** The props of a hover or contextmenu call. *)
Definition mousePropsOf (d : Dispatch) : option MouseEventHandlerProps :=
  match dispatch_args d with
  | ContextmenuArgs props => Some props
  | HoverArgs props => Some (hover_props props)
  | _ => None
  end.

(** ** Notions used in the statements *)

(** What a method leaves alone: the two flags and the listeners waiting on the
    document element. *)
Definition keepsFlags (s s' : EventsExtension) : Prop :=
  mousedown s' = mousedown s /\
  mouseover s' = mouseover s /\
  documentMouseupOnce s' = documentMouseupOnce s.

(** While the interacting flag is up, a listener is waiting on the document
    element. *)
Definition listening (s : EventsExtension) : Prop :=
  mousedown s = true -> (0 < documentMouseupOnce s)%nat.

(** One call of a chain, as [options] records it. *)
Definition recorded (key : HandlerKey) (args : Payload) (ran : list Handler) : Dispatch :=
  {| dispatch_key := key; dispatch_args := args;
     dispatch_results := map (fun h => h args) ran |}.

(** The state of a call for an event that is already in the map. *)
Definition withoutMarks (st : ClickHandlerState) : Prop :=
  markRanges st = [] /\ forall markType, getMark st markType = Ok None.

(** The entry of an ancestor on the path: the node and the position before it. *)
Definition entryOf (a : ProsemirrorNode * Z) : NodeWithPosition :=
  {| nwp_node := Some (fst a); nwp_pos := snd a |}.

(** The nodes sequence in closed form: the slot of the directly hit node at
    the position itself, then the ancestors from the innermost to the one at
    depth 1. *)
Definition nodesOf (rpos : ResolvedPos) : list NodeWithPosition :=
  {| nwp_node := nodeAfter rpos; nwp_pos := rp_pos rpos |}
  :: rev (map entryOf (rp_path rpos)).

(** The entry of the ancestor at level [k], for [1 <= k <= depth]. *)
Definition levelEntry (rpos : ResolvedPos) (k : nat) : NodeWithPosition :=
  match rp_path rpos !! pred k with
  | Some a => entryOf a
  | None => {| nwp_node := None; nwp_pos := 0 |}
  end.

(** The props a mouse handler builds from the nodes and the mark ranges. *)
Definition propsFor (view : EditorView) (event : DomEvent)
  (nodes : list NodeWithPosition) (ranges : list GetMarkRange) : MouseEventHandlerProps :=
  {| props_event := event;
     props_view := view;
     props_nodes := nodes;
     props_marks := ranges;
     props_getMark := getMarkIn (schema (view_state view)) ranges;
     props_getNode := getNodeIn (schema (view_state view)) nodes |}.

(** What a mouse handler does with the answer of its callback. *)
Definition capture (event : DomEvent) (isCaptured : bool) : M bool :=
  (if isCaptured then preventDefault event else ret tt) >> ret isCaptured.

(** The faults of a lookup by a name the schema does not have. *)
Definition nodeFault : Fault :=
  RemirrorError EXTENSION "The node being checked does not exist".

Definition markFault (name : string) : Fault :=
  RemirrorError EXTENSION (markMessage (ByName name)).

(** At most one listener waits on the document element, and it waits exactly
    while the interacting flag is up. *)
Definition oneListener (s : EventsExtension) : Prop :=
  documentMouseupOnce s = if mousedown s then 1%nat else 0%nat.

(** The page events whose handlers have no business with the two flags. *)
Definition leavesFlags (ev : PageEvent) : bool :=
  match ev with
  | FocusEditor _ | BlurEditor _ => true
  | MouseoutInside _ _ | MouseoverInside _ _ | ContextmenuInside _ _ => true
  | ClickInside _ _ _ _ => true
  | _ => false
  end.

(** The outcome of a hover or contextmenu dispatch that called the chain of
    [key] once, with arguments built by [mk] from props for the event: the
    answer is true exactly when a handler that ran returned a truthy value,
    [preventDefault] was called exactly when the answer is true, and the map
    of handled click events is as it was. *)
Definition capturedWhenHandled (key : HandlerKey)
  (mk : MouseEventHandlerProps -> Payload) (event : DomEvent) (s : EventsExtension)
  (outcome : Result bool * EventsExtension) : Prop :=
  exists r d props,
    fst outcome = Ok r /\
    dispatched (snd outcome) = (dispatched s ++ [d])%list /\
    dispatch_key d = key /\
    dispatch_args d = mk props /\
    props_event props = event /\
    r = existsb truthy (dispatch_results d) /\
    defaultPrevented (snd outcome) =
      (defaultPrevented s ++ (if r then [event_id event] else []))%list /\
    eventMap (snd outcome) = eventMap s.

(** Delivering an event twice to a handler repeats the chain call: the same
    key, the same arguments and the same results, twice. *)
Definition repeatable (handler : M bool) (s : EventsExtension) : Prop :=
  exists r s1 s2 d,
    handler s = (Ok r, s1) /\
    handler s1 = (Ok r, s2) /\
    dispatched s2 = (dispatched s ++ [d; d])%list.

(** ** A small document: doc(blockquote(paragraph(bold "hello")))

    The blockquote opens at position 0, the paragraph at 1, the text runs from
    2 to 7, and the document ends at 9. *)

Module Sample.

Definition docType : NodeType := {| node_type_name := "doc" |}.
Definition blockquoteType : NodeType := {| node_type_name := "blockquote" |}.
Definition paragraphType : NodeType := {| node_type_name := "paragraph" |}.
Definition textType : NodeType := {| node_type_name := "text" |}.
Definition boldType : MarkType := {| mark_type_name := "bold" |}.
Definition italicType : MarkType := {| mark_type_name := "italic" |}.

Definition sampleSchema : EditorSchema :=
  {| schema_nodes :=
       <["doc" := docType]> (<["blockquote" := blockquoteType]>
         (<["paragraph" := paragraphType]> (<["text" := textType]> ∅)));
     schema_marks := <["bold" := boldType]> (<["italic" := italicType]> ∅) |}.

Definition docNode : ProsemirrorNode := {| node_type := docType; node_key := 0 |}.
Definition blockquoteNode : ProsemirrorNode := {| node_type := blockquoteType; node_key := 1 |}.
Definition paragraphNode : ProsemirrorNode := {| node_type := paragraphType; node_key := 2 |}.
Definition textNode : ProsemirrorNode := {| node_type := textType; node_key := 3 |}.
Definition bold : Mark := {| mark_type := boldType; mark_key := 0 |}.

(** Position 2, the start of the text: the paragraph is the container and the
    text node follows. *)
Definition startOfText : ResolvedPos :=
  {| rp_pos := 2; rp_root := docNode; rp_path := [(blockquoteNode, 0); (paragraphNode, 1)];
     rp_nodeAfter := Some textNode; rp_marks := [bold] |}.

(** Position 7, the end of the paragraph: nothing follows inside it. *)
Definition endOfParagraph : ResolvedPos :=
  {| rp_pos := 7; rp_root := docNode; rp_path := [(blockquoteNode, 0); (paragraphNode, 1)];
     rp_nodeAfter := None; rp_marks := [] |}.

(** Position 9, the end of the document. *)
Definition endOfDoc : ResolvedPos :=
  {| rp_pos := 9; rp_root := docNode; rp_path := [];
     rp_nodeAfter := None; rp_marks := [] |}.

Definition resolve (pos : Z) : Result ResolvedPos :=
  if decide (pos = 2) then Ok startOfText
  else if decide (pos = 7) then Ok endOfParagraph
  else if decide (pos = 9) then Ok endOfDoc
  else Throw (RangeError "Position out of range").

Definition state : EditorState := {| schema := sampleSchema; doc_resolve := resolve |}.

(** The hit test: over the start of the text, to the right of the text, below
    the content, and nowhere. *)
Definition hitTest (coords : Z * Z) : option EventPosition :=
  if decide (coords = (10, 10)) then Some {| ep_pos := 2; ep_inside := 1 |}
  else if decide (coords = (90, 10)) then Some {| ep_pos := 7; ep_inside := 1 |}
  else if decide (coords = (10, 200)) then Some {| ep_pos := 9; ep_inside := -1 |}
  else None.

Definition view : EditorView := {| view_state := state; posAtCoords := hitTest |}.

Definition markRange (rpos : ResolvedPos) (type : MarkType) : option GetMarkRange :=
  if decide (rp_pos rpos = 2 /\ type = boldType)
  then Some {| range_from := 2; range_to := 7; range_mark := bold; range_text := "hello" |}
  else None.

Definition overText : DomEvent := {| event_id := 1; clientX := 10; clientY := 10 |}.
Definition pastText : DomEvent := {| event_id := 2; clientX := 90; clientY := 10 |}.
Definition belowContent : DomEvent := {| event_id := 3; clientX := 10; clientY := 200 |}.
Definition offPage : DomEvent := {| event_id := 4; clientX := -5; clientY := -5 |}.

Definition always (r : HandlerResult) : Handler := fun _ => r.

Definition boldExtension : AnyExtension :=
  {| extension_name := "bold";
     createEventHandlers :=
       Some (fun _ => [(ClickMark, always ReturnsFalse); (Click, always ReturnsUndefined)]);
     extension_exclude_clickHandler := false |}.

Definition linkExtension : AnyExtension :=
  {| extension_name := "link";
     createEventHandlers := Some (fun _ => [(Click, always ReturnsTrue)]);
     extension_exclude_clickHandler := true |}.

Definition historyExtension : AnyExtension :=
  {| extension_name := "history";
     createEventHandlers := None;
     extension_exclude_clickHandler := false |}.

Definition mentionExtension : AnyExtension :=
  {| extension_name := "mention";
     createEventHandlers :=
       Some (fun _ => [(Hover, always ReturnsTrue); (Contextmenu, always ReturnsFalse)]);
     extension_exclude_clickHandler := false |}.

Definition sampleStore (excluded : bool) : ExtensionStore :=
  {| managerSettings_exclude_clickHandler := excluded;
     extensions := [boldExtension; linkExtension; historyExtension; mentionExtension];
     currentState := state |}.

(** The extension once its view exists. *)
Definition editor : EventsExtension := after onView (newExtension (sampleStore false)).

(** A click on the bold text as the host reports it: the text node, then the
    paragraph, then the blockquote. *)
Definition threeLevels : list ClickTarget :=
  [ {| target_node := textNode; target_pos := 2; target_direct := true |};
    {| target_node := paragraphNode; target_pos := 1; target_direct := false |};
    {| target_node := blockquoteNode; target_pos := 0; target_direct := false |} ].

(** The editor after a mousedown inside it and a mouseleave. *)
Definition pressedThenLeft : EventsExtension :=
  after (deliver markRange (MouseleaveEditor overText))
    (after (deliver markRange (MousedownInside overText)) editor).

(** An editor with three click handlers and two clickMark handlers. *)
Definition busyEditor : EventsExtension :=
  set_mappedHandlers
    [(Click, always ReturnsUndefined); (ClickMark, always ReturnsTrue);
     (Click, always ReturnsTrue); (ClickMark, always ReturnsFalse);
     (Click, always ReturnsFalse)]
    (newExtension (sampleStore true)).

(** The editor after the first of the three calls for a click on the text. *)
Definition clickedOnce : EventsExtension :=
  after (handleClickOn markRange view 2 textNode 2 overText true) editor.

(** A view whose hit test answers with a position outside the document. *)
Definition staleView : EditorView :=
  {| view_state := state;
     posAtCoords := fun _ => Some {| ep_pos := 50; ep_inside := 1 |} |}.

(** The nodes sequence of a hover over the start of the text. *)
Definition nodesAtStartOfText : list NodeWithPosition :=
  [ {| nwp_node := Some textNode; nwp_pos := 2 |};
    {| nwp_node := Some paragraphNode; nwp_pos := 1 |};
    {| nwp_node := Some blockquoteNode; nwp_pos := 0 |} ].

Definition boldRange : GetMarkRange :=
  {| range_from := 2; range_to := 7; range_mark := bold; range_text := "hello" |}.

Definition italicRange : GetMarkRange :=
  {| range_from := 0; range_to := 9;
     range_mark := {| mark_type := italicType; mark_key := 1 |}; range_text := "" |}.

(** An editor with click handlers of its own, before its view exists. *)
Definition busyEditorWithExtensions : EventsExtension :=
  set_mappedHandlers
    [(Click, always ReturnsFalse); (Hover, always ReturnsFalse)]
    (newExtension (sampleStore false)).

End Sample.

(** * Properties *)

Local Open Scope list_scope.

(** ** Running the methods *)

Lemma options_run key args s :
  options key args s =
  (Ok (snd (callHandlers (policyOf key) (handlersFor key (mappedHandlers s)) args)),
   set_dispatched
     (dispatched s ++
      [{| dispatch_key := key; dispatch_args := args;
          dispatch_results :=
            fst (callHandlers (policyOf key) (handlersFor key (mappedHandlers s)) args) |}])
     s).
Proof.
  unfold options.
  destruct (callHandlers (policyOf key) (handlersFor key (mappedHandlers s)) args).
  reflexivity.
Qed.

Lemma keepsFlags_refl s : keepsFlags s s.
Proof. repeat split. Qed.

Lemma keepsFlags_trans s1 s2 s3 :
  keepsFlags s1 s2 -> keepsFlags s2 s3 -> keepsFlags s1 s3.
Proof.
  unfold keepsFlags. intros (a1 & b1 & c1) (a2 & b2 & c2).
  repeat split; congruence.
Qed.

Lemma bind_keepsFlags {A B} (m : M A) (k : A -> M B) s :
  keepsFlags s (after m s) ->
  (forall a s1, keepsFlags s1 (after (k a) s1)) ->
  keepsFlags s (after (bind m k) s).
Proof.
  unfold after, bind. intros Hm Hk.
  destruct (m s) as [[a | f] s1] eqn:E; simpl in *.
  - eapply keepsFlags_trans; [exact Hm | apply Hk].
  - exact Hm.
Qed.

Lemma options_keepsFlags key args s : keepsFlags s (after (options key args) s).
Proof. unfold after. rewrite options_run. repeat split. Qed.

Lemma addHandler_keepsFlags key handler s :
  keepsFlags s (after (addHandler key handler) s).
Proof. repeat split. Qed.

Lemma forEach_keepsFlags {A} (l : list A) (body : A -> M unit) :
  (forall a s, keepsFlags s (after (body a) s)) ->
  forall s, keepsFlags s (after (forEach l body) s).
Proof.
  intros Hbody. induction l as [| a l IH]; intros s; simpl.
  - apply keepsFlags_refl.
  - apply bind_keepsFlags; [apply Hbody | intros _ s1; apply IH].
Qed.

Lemma onView_keepsFlags s : keepsFlags s (after onView s).
Proof.
  unfold onView. apply bind_keepsFlags; [apply keepsFlags_refl |].
  intros st s1. destruct (managerSettings_exclude_clickHandler st).
  - apply keepsFlags_refl.
  - apply forEach_keepsFlags. intros extension s2.
    destruct (createEventHandlers extension) as [create |]; [| apply keepsFlags_refl].
    destruct (extension_exclude_clickHandler extension); [apply keepsFlags_refl |].
    apply forEach_keepsFlags. intros [key handler] s3. apply addHandler_keepsFlags.
Qed.

Section FlagProperties.

Variable getMarkRange : ResolvedPos -> MarkType -> option GetMarkRange.

Lemma handleClickOn_keepsFlags view pos nd nodePos event direct_ s :
  keepsFlags s (after (handleClickOn getMarkRange view pos nd nodePos event direct_) s).
Proof.
  unfold handleClickOn.
  apply bind_keepsFlags; [apply keepsFlags_refl | intros state s1].
  apply bind_keepsFlags; [apply keepsFlags_refl | intros rpos s2].
  apply bind_keepsFlags; [apply keepsFlags_refl | intros handled s3].
  apply bind_keepsFlags.
  - destruct (negb handled); [| apply keepsFlags_refl].
    apply bind_keepsFlags; [apply options_keepsFlags | intros; apply keepsFlags_refl].
  - intros returnValue s4.
    apply bind_keepsFlags; [repeat split | intros _ s5].
    apply bind_keepsFlags; [apply options_keepsFlags | intros; apply keepsFlags_refl].
Qed.

Lemma handleClickOnEach_keepsFlags view pos event targets :
  forall s, keepsFlags s (after (handleClickOnEach getMarkRange view pos event targets) s).
Proof.
  induction targets as [| t rest IH]; intros s; simpl.
  - apply keepsFlags_refl.
  - apply bind_keepsFlags; [apply handleClickOn_keepsFlags | intros r s1].
    apply bind_keepsFlags; [apply IH | intros; apply keepsFlags_refl].
Qed.

Lemma createMouseEventHandler_keepsFlags fn view event :
  (forall props s, keepsFlags s (after (fn props) s)) ->
  forall s, keepsFlags s (after (createMouseEventHandler getMarkRange fn view event) s).
Proof.
  intros Hfn s. unfold createMouseEventHandler.
  destruct (getPositionFromEvent view event) as [eventPosition |]; [| apply keepsFlags_refl].
  apply bind_keepsFlags; [apply keepsFlags_refl | intros rpos s1].
  apply bind_keepsFlags.
  - destruct (ep_inside eventPosition >? -1); apply keepsFlags_refl.
  - intros nodes s2.
    apply bind_keepsFlags; [apply Hfn | intros isCaptured s3].
    apply bind_keepsFlags; [| intros; apply keepsFlags_refl].
    destruct isCaptured; repeat split.
Qed.

Lemma hover_keepsFlags h props s :
  keepsFlags s
    (after (let* r := options Hover (HoverArgs {| hover_props := props; hovering := h |}) in
            ret (r || false)) s).
Proof.
  apply bind_keepsFlags; [apply options_keepsFlags | intros; apply keepsFlags_refl].
Qed.

(** After [endMouseover] the interacting flag is down, and nothing is added to
    the listeners on the document element. *)
Lemma endMouseover_run s :
  mousedown (after endMouseover s) = false /\
  mouseover (after endMouseover s) = mouseover s /\
  documentMouseupOnce (after endMouseover s) = documentMouseupOnce s.
Proof.
  unfold after, endMouseover, bind, read, modify, ret.
  destruct (mousedown s) eqn:E; simpl; auto.
Qed.

Lemma times_endMouseover n :
  forall s,
    mousedown (after (times n endMouseover) s) = (if n is O then mousedown s else false) /\
    mouseover (after (times n endMouseover) s) = mouseover s /\
    documentMouseupOnce (after (times n endMouseover) s) = documentMouseupOnce s.
Proof.
  induction n as [| n IH]; intros s.
  - repeat split.
  - simpl. unfold after, bind.
    destruct (endMouseover s) as [[[] | f] s1] eqn:E.
    + pose proof (endMouseover_run s) as (Hd & Ho & Hl).
      unfold after in Hd, Ho, Hl. rewrite E in Hd, Ho, Hl. simpl in Hd, Ho, Hl.
      destruct (IH s1) as (Hd' & Ho' & Hl'). unfold after in Hd', Ho', Hl'.
      rewrite Hd', Ho', Hl'. repeat split; try congruence.
      destruct n; congruence.
    + exfalso. revert E. unfold endMouseover, bind, read, modify, ret.
      destruct (negb (mousedown s)); discriminate.
Qed.

(** Delivering [mouseup] to the document element: the waiting listeners are
    used up, and if there was one the interacting flag is down. *)
Lemma documentElement_mouseup_run s :
  mousedown (after documentElement_mouseup s) =
    (if documentMouseupOnce s is O then mousedown s else false) /\
  mouseover (after documentElement_mouseup s) = mouseover s /\
  documentMouseupOnce (after documentElement_mouseup s) = O.
Proof.
  unfold documentElement_mouseup, after, bind, read, modify. simpl.
  destruct (times_endMouseover (documentMouseupOnce s) (set_documentMouseupOnce 0 s))
    as (Hd & Ho & Hl).
  unfold after in Hd, Ho, Hl.
  destruct (times (documentMouseupOnce s) endMouseover (set_documentMouseupOnce 0 s))
    as [[[] | f] s1] eqn:E; simpl in *; auto.
Qed.

Lemma keepsFlags_listening s s' : keepsFlags s s' -> listening s -> listening s'.
Proof. unfold keepsFlags, listening. intros (Hd & _ & Hl) H. rewrite Hd, Hl. exact H. Qed.

Lemma startMouseover_run s :
  mousedown (after startMouseover s) = true /\
  mouseover (after startMouseover s) = true /\
  documentMouseupOnce (after startMouseover s) =
    (if mousedown s then documentMouseupOnce s else S (documentMouseupOnce s)).
Proof.
  unfold after, startMouseover, bind, read, modify, ret. simpl.
  destruct (mousedown s) eqn:E; simpl; auto.
Qed.

Lemma after_bind_keepsFlags {A B} (m : M A) (k : A -> M B) s :
  (forall a s1, keepsFlags s1 (after (k a) s1)) ->
  keepsFlags (after m s) (after (bind m k) s).
Proof.
  unfold after, bind. intros Hk.
  destruct (m s) as [[a | f] s1]; simpl; [apply Hk | apply keepsFlags_refl].
Qed.

Lemma or_false_keepsFlags key args s1 :
  keepsFlags s1 (after (let* r := options key args in ret (r || false)) s1).
Proof.
  apply bind_keepsFlags; [apply options_keepsFlags | intros; apply keepsFlags_refl].
Qed.

Lemma mousedown_flags event s :
  let s' := after (handleDOMEvents_mousedown event) s in
  mousedown s' = true /\
  mouseover s' = true /\
  documentMouseupOnce s' =
    (if mousedown s then documentMouseupOnce s else S (documentMouseupOnce s)).
Proof.
  intros s'. subst s'. unfold handleDOMEvents_mousedown.
  destruct (after_bind_keepsFlags startMouseover
              (fun _ => let* r := options Mousedown (MouseArgs event) in ret (r || false)) s)
    as (Hd & Ho & Hl); [intros; apply or_false_keepsFlags |].
  destruct (startMouseover_run s) as (Hd' & Ho' & Hl').
  rewrite Hd, Ho, Hl. auto.
Qed.

Lemma mouseup_flags event s :
  let s' := after (handleDOMEvents_mouseup event) s in
  mousedown s' = false /\
  mouseover s' = mouseover s /\
  documentMouseupOnce s' = documentMouseupOnce s.
Proof.
  intros s'. subst s'. unfold handleDOMEvents_mouseup.
  destruct (after_bind_keepsFlags endMouseover
              (fun _ => let* r := options Mouseup (MouseArgs event) in ret (r || false)) s)
    as (Hd & Ho & Hl); [intros; apply or_false_keepsFlags |].
  destruct (endMouseover_run s) as (Hd' & Ho' & Hl').
  rewrite Hd, Ho, Hl. auto.
Qed.

Lemma mouseleave_flags event s :
  let s' := after (handleDOMEvents_mouseleave event) s in
  mousedown s' = mousedown s /\
  mouseover s' = false /\
  documentMouseupOnce s' = documentMouseupOnce s.
Proof.
  intros s'. subst s'. unfold handleDOMEvents_mouseleave.
  destruct (after_bind_keepsFlags (modify (set_mouseover false))
              (fun _ => let* r := options Mouseleave (MouseArgs event) in ret (r || false)) s)
    as (Hd & Ho & Hl); [intros; apply or_false_keepsFlags |].
  rewrite Hd, Ho, Hl. auto.
Qed.

Lemma mouseenter_flags event s :
  let s' := after (handleDOMEvents_mouseenter event) s in
  mousedown s' = mousedown s /\
  mouseover s' = true /\
  documentMouseupOnce s' = documentMouseupOnce s.
Proof.
  intros s'. subst s'. unfold handleDOMEvents_mouseenter.
  destruct (after_bind_keepsFlags (modify (set_mouseover true))
              (fun _ => let* r := options Mouseenter (MouseArgs event) in ret (r || false)) s)
    as (Hd & Ho & Hl); [intros; apply or_false_keepsFlags |].
  rewrite Hd, Ho, Hl. auto.
Qed.

(** A [mouseup] anywhere on the page, delivered in a state where a listener
    waits whenever the flag is up, leaves the interacting flag down. *)
Lemma mouseup_inside_flags event s :
  mousedown (after (deliver getMarkRange (MouseupInside event)) s) = false.
Proof.
  simpl. unfold after, bind.
  destruct (mouseup_flags event s) as (Hd & _). unfold after in Hd.
  destruct (handleDOMEvents_mouseup event s) as [[r | f] s1]; simpl in *; [| exact Hd].
  destruct (documentElement_mouseup_run s1) as (Hd' & _). unfold after in Hd'.
  destruct (documentElement_mouseup s1) as [[[] | f] s2]; simpl in *;
    rewrite Hd'; destruct (documentMouseupOnce s1); auto.
Qed.

Lemma mouseup_outside_flags event s :
  let s' := after (deliver getMarkRange (MouseupOutside event)) s in
  mousedown s' = (if documentMouseupOnce s is O then mousedown s else false) /\
  mouseover s' = mouseover s /\
  documentMouseupOnce s' = O.
Proof.
  intros s'. subst s'. simpl.
  destruct (after_bind_keepsFlags documentElement_mouseup (fun _ => ret false) s)
    as (Hd & Ho & Hl); [intros; apply keepsFlags_refl |].
  destruct (documentElement_mouseup_run s) as (Hd' & Ho' & Hl').
  rewrite Hd, Ho, Hl. auto.
Qed.

Lemma deliver_listening ev s :
  listening s -> listening (after (deliver getMarkRange ev) s).
Proof.
  intros Hs. destruct ev as [e | e | e | e | e | e | e | v e | v e | v e | v p e ts].
  - eapply keepsFlags_listening; [apply or_false_keepsFlags | exact Hs].
  - eapply keepsFlags_listening; [apply or_false_keepsFlags | exact Hs].
  - unfold listening in *.
    change (deliver getMarkRange (MousedownInside e)) with (handleDOMEvents_mousedown e).
    destruct (mousedown_flags e s) as (_ & _ & Hl).
    rewrite Hl. intros _. destruct (mousedown s); [auto | lia].
  - unfold listening. rewrite mouseup_inside_flags. discriminate.
  - unfold listening in *. destruct (mouseup_outside_flags e s) as (Hd & _ & _).
    rewrite Hd. destruct (documentMouseupOnce s); [| discriminate].
    intros H. apply Hs in H. lia.
  - unfold listening in *.
    change (deliver getMarkRange (MouseleaveEditor e)) with (handleDOMEvents_mouseleave e).
    destruct (mouseleave_flags e s) as (Hd & _ & Hl).
    rewrite Hd, Hl. exact Hs.
  - unfold listening in *.
    change (deliver getMarkRange (MouseenterEditor e)) with (handleDOMEvents_mouseenter e).
    destruct (mouseenter_flags e s) as (Hd & _ & Hl).
    rewrite Hd, Hl. exact Hs.
  - eapply keepsFlags_listening; [| exact Hs]. simpl.
    apply createMouseEventHandler_keepsFlags. intros; apply hover_keepsFlags.
  - eapply keepsFlags_listening; [| exact Hs]. simpl.
    apply createMouseEventHandler_keepsFlags. intros; apply hover_keepsFlags.
  - eapply keepsFlags_listening; [| exact Hs]. simpl.
    apply createMouseEventHandler_keepsFlags. intros; apply or_false_keepsFlags.
  - eapply keepsFlags_listening; [| exact Hs]. simpl.
    apply bind_keepsFlags; [apply handleClickOnEach_keepsFlags | intros; apply keepsFlags_refl].
Qed.

Lemma reachable_listening s : reachable getMarkRange s -> listening s.
Proof.
  induction 1 as [st | s _ IH | s key handler _ IH | s ev _ IH].
  - unfold listening. simpl. discriminate.
  - eapply keepsFlags_listening; [apply onView_keepsFlags | exact IH].
  - eapply keepsFlags_listening; [apply addHandler_keepsFlags | exact IH].
  - apply deliver_listening, IH.
Qed.

(** C3. [isInteracting] is the conjunction of the interacting flag and the
    pointer-over flag. It is false for a new extension, true after a mousedown
    inside the editor, and false again after a mouseup anywhere on the page,
    inside the editor or outside of it, in every state the extension can be
    in. *)
Theorem isInteracting_transitions :
  (forall s, isInteracting s = mousedown s && mouseover s) /\
  (forall st, isInteracting (newExtension st) = false) /\
  (forall s event,
     isInteracting (after (deliver getMarkRange (MousedownInside event)) s) = true) /\
  (forall s inside outside,
     reachable getMarkRange s ->
     isInteracting (after (deliver getMarkRange (MouseupInside inside)) s) = false /\
     isInteracting (after (deliver getMarkRange (MouseupOutside outside)) s) = false).
Proof.
  split; [reflexivity |]. split; [reflexivity |]. split.
  - intros s event. unfold isInteracting.
    change (deliver getMarkRange (MousedownInside event))
      with (handleDOMEvents_mousedown event).
    destruct (mousedown_flags event s) as (Hd & Ho & _). rewrite Hd, Ho. reflexivity.
  - intros s inside outside Hreach. apply reachable_listening in Hreach.
    unfold isInteracting. split.
    + rewrite mouseup_inside_flags. reflexivity.
    + destruct (mouseup_outside_flags outside s) as (Hd & _ & _). rewrite Hd.
      destruct (documentMouseupOnce s) eqn:E; [| reflexivity].
      destruct (mousedown s) eqn:Ed; [| reflexivity].
      unfold listening in Hreach. rewrite E in Hreach. specialize (Hreach Ed). lia.
Qed.

(** C9. The mousedown handler of the editor raises the pointer-over flag
    together with the interacting flag: right after a mousedown inside the
    editor [isInteracting] is true, also when a mouseleave had lowered the
    pointer-over flag and no mouseenter came in between. *)
Theorem mousedown_raises_pointer_over :
  forall s leave down,
    let left := after (deliver getMarkRange (MouseleaveEditor leave)) s in
    let pressed := after (deliver getMarkRange (MousedownInside down)) left in
    mouseover left = false /\
    mouseover pressed = true /\
    mousedown pressed = true /\
    isInteracting pressed = true.
Proof.
  intros s leave down left pressed. subst left pressed.
  change (deliver getMarkRange (MouseleaveEditor leave))
    with (handleDOMEvents_mouseleave leave).
  change (deliver getMarkRange (MousedownInside down))
    with (handleDOMEvents_mousedown down).
  destruct (mouseleave_flags leave s) as (_ & Ho & _).
  destruct (mousedown_flags down (after (handleDOMEvents_mouseleave leave) s))
    as (Hd' & Ho' & _).
  unfold isInteracting. rewrite Ho, Hd', Ho'. auto.
Qed.

End FlagProperties.

(** ** Registration *)

Lemma set_mappedHandlers_same s : set_mappedHandlers (mappedHandlers s) s = s.
Proof. destruct s; reflexivity. Qed.

Lemma forEach_addHandler entries :
  forall s,
    forEach entries (fun '(key, handler) => addHandler key handler) s =
    (Ok tt, set_mappedHandlers (mappedHandlers s ++ entries) s).
Proof.
  induction entries as [| [key handler] rest IH]; intros s.
  - simpl. rewrite app_nil_r, set_mappedHandlers_same. reflexivity.
  - simpl. unfold bind, addHandler, modify. rewrite IH.
    unfold set_mappedHandlers. simpl. rewrite <- app_assoc. reflexivity.
Qed.

Lemma forEach_extension exts :
  forall s,
    forEach exts (fun extension =>
      match createEventHandlers extension with
      | None => ret tt
      | Some create =>
          if extension_exclude_clickHandler extension then ret tt
          else forEach (create tt) (fun '(key, handler) => addHandler key handler)
      end) s =
    (Ok tt, set_mappedHandlers (mappedHandlers s ++ flat_map exposedHandlers exts) s).
Proof.
  induction exts as [| extension rest IH]; intros s.
  - simpl. rewrite app_nil_r, set_mappedHandlers_same. reflexivity.
  - simpl. unfold bind. unfold exposedHandlers at 1.
    destruct (createEventHandlers extension) as [create |].
    + destruct (extension_exclude_clickHandler extension).
      * unfold ret. rewrite IH. reflexivity.
      * rewrite forEach_addHandler, IH.
        unfold set_mappedHandlers. simpl. rewrite <- app_assoc. reflexivity.
    + unfold ret. rewrite IH. reflexivity.
Qed.

(** C8. [onView] goes through all extensions of the store and registers, in
    order, every handler each of them exposes through [createEventHandlers];
    an extension without that method, or whose options exclude
    [clickHandler], contributes nothing, and when the manager settings
    exclude [clickHandler] nothing at all is registered. *)
Theorem onView_registers_exposed_handlers :
  forall s,
    (managerSettings_exclude_clickHandler (store s) = true ->
     onView s = (Ok tt, s)) /\
    (managerSettings_exclude_clickHandler (store s) = false ->
     onView s =
     (Ok tt,
      set_mappedHandlers
        (mappedHandlers s ++ flat_map exposedHandlers (extensions (store s))) s)).
Proof.
  intros s. unfold onView, bind, read. split; intros H; rewrite H.
  - reflexivity.
  - apply forEach_extension.
Qed.

(** ** The two dispatch policies *)

Lemma callEarlyReturn_first_truthy (pre : list Handler) h post args :
  Forall (fun h' => truthy (h' args) = false) pre ->
  truthy (h args) = true ->
  callEarlyReturn (pre ++ h :: post) args = (map (fun h' => h' args) (pre ++ [h]), true).
Proof.
  intros Hpre Hh. induction Hpre as [| h' pre Hh' _ IH]; simpl.
  - rewrite Hh. reflexivity.
  - rewrite Hh', IH. reflexivity.
Qed.

Lemma callEarlyReturn_none_truthy handlers args :
  Forall (fun h => truthy (h args) = false) handlers ->
  callEarlyReturn handlers args = (map (fun h => h args) handlers, false).
Proof.
  induction 1 as [| h rest Hh _ IH]; simpl.
  - reflexivity.
  - rewrite Hh, IH. reflexivity.
Qed.

Lemma existsb_map {A B} (f : A -> B) (p : B -> bool) l :
  existsb p (map f l) = existsb (fun a => p (f a)) l.
Proof. induction l as [| a l IH]; simpl; [reflexivity | rewrite IH; reflexivity]. Qed.

Lemma options_early key args s (pre : list Handler) h post :
  policyOf key = EarlyReturn ->
  handlersFor key (mappedHandlers s) = pre ++ h :: post ->
  Forall (fun h' => truthy (h' args) = false) pre ->
  truthy (h args) = true ->
  options key args s =
  (Ok true, set_dispatched (dispatched s ++ [recorded key args (pre ++ [h])]) s).
Proof.
  intros Hpolicy Hhandlers Hpre Hh. rewrite options_run, Hpolicy, Hhandlers.
  unfold callHandlers.
  rewrite (callEarlyReturn_first_truthy pre h post args Hpre Hh). reflexivity.
Qed.

Lemma options_early_none key args s :
  policyOf key = EarlyReturn ->
  Forall (fun h => truthy (h args) = false) (handlersFor key (mappedHandlers s)) ->
  options key args s =
  (Ok false,
   set_dispatched
     (dispatched s ++ [recorded key args (handlersFor key (mappedHandlers s))]) s).
Proof.
  intros Hpolicy Hall. rewrite options_run, Hpolicy. unfold callHandlers.
  rewrite (callEarlyReturn_none_truthy _ args Hall). reflexivity.
Qed.

Lemma options_all key args s :
  policyOf key = RunAll ->
  options key args s =
  (Ok (existsb (fun h => truthy (h args)) (handlersFor key (mappedHandlers s))),
   set_dispatched
     (dispatched s ++ [recorded key args (handlersFor key (mappedHandlers s))]) s).
Proof.
  intros Hpolicy. rewrite options_run, Hpolicy. unfold callHandlers, callRunAll.
  cbn [fst snd]. rewrite existsb_map. reflexivity.
Qed.

Section ClickProperties.

Variable getMarkRange : ResolvedPos -> MarkType -> option GetMarkRange.

(** One call of [handleClickOn] at a position that resolves: the click chain
    is called last, with a state built from the base state; the clickMark
    chain is called before it exactly when the event is not yet in the map;
    afterwards the event is in the map. *)
Lemma handleClickOn_run view pos nd nodePos event direct_ s rpos :
  doc_resolve (currentState (store s)) pos = Ok rpos ->
  let handled := bool_decide (is_Some (eventMap s !! event_id event)) in
  let baseState :=
    createClickMarkState getMarkRange
      {| ccm_handled := handled; ccm_rpos := rpos; ccm_view := view;
         ccm_state := currentState (store s) |} in
  exists (r : bool) (s' : EventsExtension) (clickState : ClickHandlerState),
    handleClickOn getMarkRange view pos nd nodePos event direct_ s = (Ok r, s') /\
    dispatched s' =
      dispatched s
      ++ (if handled then []
          else [recorded ClickMark (ClickMarkArgs event baseState)
                  (handlersFor ClickMark (mappedHandlers s))])
      ++ [{| dispatch_key := Click; dispatch_args := ClickArgs event clickState;
             dispatch_results :=
               fst (callHandlers (policyOf Click) (handlersFor Click (mappedHandlers s))
                      (ClickArgs event clickState)) |}] /\
    eventMap s' = <[event_id event := true]> (eventMap s) /\
    store s' = store s /\
    mappedHandlers s' = mappedHandlers s /\
    getMark clickState = cm_getMark baseState /\
    markRanges clickState = cm_markRanges baseState /\
    direct clickState = direct_ /\
    click_pos clickState = pos /\
    nodeWithPosition clickState = {| nwp_node := Some nd; nwp_pos := nodePos |} /\
    (forall nodeType,
       getNode clickState nodeType =
       rbind (invariant (lookupType (schema_nodes (schema (currentState (store s)))) nodeType)
                EXTENSION "The node being checked does not exist")
         (fun type =>
            Ok (if decide (type = node_type nd)
                then Some {| nwp_node := Some nd; nwp_pos := nodePos |}
                else None))).
Proof.
  intros Hresolve handled baseState.
  unfold handleClickOn, bind, read, lift, modify, ret. rewrite Hresolve.
  fold handled. fold baseState.
  destruct handled eqn:Eh; cbn [negb].
  - rewrite options_run. cbn [fst snd].
    eexists _, _, _. split; [reflexivity |].
    cbn. repeat split; reflexivity.
  - rewrite !options_run. cbn [fst snd].
    eexists _, _, _. split; [reflexivity |].
    cbn. rewrite <- app_assoc. repeat split; reflexivity.
Qed.

(** The decorator lists nine handler keys. [Hover] is typed as a handler in
    [EventsOptions] and called by the mouseover and mouseout entries, but is
    not among the keys; like the other keys without an early return value it
    has no entry in [handlerKeyOptions]. *)
Lemma hover_is_not_listed :
  ~ In Hover handlerKeys /\ handlerKeyOptions Hover = None /\
  forall key, key <> Hover -> In key handlerKeys.
Proof.
  split; [| split].
  - simpl. intros H. repeat (destruct H as [H | H]; [discriminate |]). exact H.
  - reflexivity.
  - intros key Hkey. destruct key; simpl; tauto.
Qed.

(** C4. Focus, blur, mousedown, mouseup, mouseleave and click are dispatched
    with early return: the chain stops at the first handler whose result is
    truthy, and the aggregate is then true. Mouseenter, contextmenu, hover and
    clickMark are dispatched with run-all: every registered handler runs and
    the aggregate is the disjunction of the results. One click dispatch calls
    the clickMark chain first and the click chain second. *)
Theorem dispatch_policies :
  (forall key,
     In key [Focus; Blur; Mousedown; Mouseup; Mouseleave; Click] ->
     policyOf key = EarlyReturn /\
     (forall args s pre h post,
        handlersFor key (mappedHandlers s) = pre ++ h :: post ->
        Forall (fun h' => truthy (h' args) = false) pre ->
        truthy (h args) = true ->
        options key args s =
        (Ok true, set_dispatched (dispatched s ++ [recorded key args (pre ++ [h])]) s)) /\
     (forall args s,
        Forall (fun h => truthy (h args) = false) (handlersFor key (mappedHandlers s)) ->
        options key args s =
        (Ok false,
         set_dispatched
           (dispatched s ++ [recorded key args (handlersFor key (mappedHandlers s))]) s))) /\
  (forall key,
     In key [Mouseenter; Contextmenu; Hover; ClickMark] ->
     policyOf key = RunAll /\
     (forall args s,
        options key args s =
        (Ok (existsb (fun h => truthy (h args)) (handlersFor key (mappedHandlers s))),
         set_dispatched
           (dispatched s ++ [recorded key args (handlersFor key (mappedHandlers s))]) s))) /\
  (forall view pos nd nodePos event direct_ s rpos,
     doc_resolve (currentState (store s)) pos = Ok rpos ->
     eventMap s !! event_id event = None ->
     exists r s' markState clickState results,
       handleClickOn getMarkRange view pos nd nodePos event direct_ s = (Ok r, s') /\
       dispatched s' =
         dispatched s
         ++ [recorded ClickMark (ClickMarkArgs event markState)
               (handlersFor ClickMark (mappedHandlers s));
             {| dispatch_key := Click; dispatch_args := ClickArgs event clickState;
                dispatch_results := results |}]).
Proof.
  split; [| split].
  - intros key Hkey.
    assert (Hpolicy : policyOf key = EarlyReturn).
    { simpl in Hkey. destruct Hkey as [<- | [<- | [<- | [<- | [<- | [<- | []]]]]]];
        reflexivity. }
    split; [exact Hpolicy |]. split.
    + intros args s pre h post. apply options_early, Hpolicy.
    + intros args s. apply options_early_none, Hpolicy.
  - intros key Hkey.
    assert (Hpolicy : policyOf key = RunAll).
    { simpl in Hkey. destruct Hkey as [<- | [<- | [<- | [<- | []]]]]; reflexivity. }
    split; [exact Hpolicy |]. intros args s. apply options_all, Hpolicy.
  - intros view pos nd nodePos event direct_ s rpos Hresolve Hfresh.
    destruct (handleClickOn_run view pos nd nodePos event direct_ s rpos Hresolve)
      as (r & s' & clickState & Hrun & Hlog & _).
    rewrite Hfresh in Hlog.
    rewrite bool_decide_eq_false_2 in Hlog by (intros [x Hx]; discriminate).
    eexists r, s', _, clickState, _. split; [exact Hrun | exact Hlog].
Qed.

Lemma clickDirects_app l1 l2 : clickDirects (l1 ++ l2) = clickDirects l1 ++ clickDirects l2.
Proof.
  induction l1 as [| d l1 IH]; simpl; [reflexivity |].
  destruct (dispatch_key d), (dispatch_args d); simpl; rewrite ?IH; reflexivity.
Qed.

Lemma clickStates_app l1 l2 : clickStates (l1 ++ l2) = clickStates l1 ++ clickStates l2.
Proof.
  induction l1 as [| d l1 IH]; simpl; [reflexivity |].
  destruct (dispatch_key d), (dispatch_args d); simpl; rewrite ?IH; reflexivity.
Qed.

(** Calls of [handleClickOn] for an event that is already in the map: the
    click chain alone is called, once per call, and every state it gets is
    without marks. *)
Lemma handleClickOnEach_handled view pos event rpos targets :
  forall s,
    doc_resolve (currentState (store s)) pos = Ok rpos ->
    is_Some (eventMap s !! event_id event) ->
    exists rs s' added,
      handleClickOnEach getMarkRange view pos event targets s = (Ok rs, s') /\
      dispatched s' = dispatched s ++ added /\
      map dispatch_key added = repeat Click (length targets) /\
      clickDirects added = map target_direct targets /\
      length (clickStates added) = length targets /\
      Forall withoutMarks (clickStates added).
Proof.
  induction targets as [| t rest IH]; intros s Hresolve Hhandled.
  - exists [], s, []. simpl. rewrite app_nil_r. repeat split. constructor.
  - destruct (handleClickOn_run view pos (target_node t) (target_pos t) event
                (target_direct t) s rpos Hresolve)
      as (r & s1 & clickState & Hrun & Hlog & Hmap & Hstore & _ & HgetMark & Hranges
          & Hdirect & _).
    rewrite bool_decide_eq_true_2 in Hlog, HgetMark, Hranges by exact Hhandled.
    destruct (IH s1) as (rs & s2 & added & Hrest & Hlog2 & Hkeys & Hdirects & Hlen & Hall).
    { rewrite Hstore. exact Hresolve. }
    { rewrite Hmap, lookup_insert_eq. eauto. }
    eexists (r :: rs), s2, (_ :: added). split; [| split; [| split; [| split; [| split]]]].
    + simpl. unfold bind. rewrite Hrun, Hrest. reflexivity.
    + rewrite Hlog2, Hlog. simpl. rewrite <- app_assoc. reflexivity.
    + simpl. rewrite Hkeys. reflexivity.
    + simpl. rewrite Hdirects, Hdirect. reflexivity.
    + simpl. rewrite Hlen. reflexivity.
    + simpl. constructor; [| exact Hall].
      split; [exact Hranges |]. intros markType. rewrite HgetMark. reflexivity.
Qed.

Lemma callsOf_keys key l :
  length (callsOf key l) = length (List.filter (fun k => bool_decide (k = key)) (map dispatch_key l)).
Proof.
  induction l as [| d l IH]; simpl; [reflexivity |].
  destruct (bool_decide (dispatch_key d = key)); simpl; rewrite IH; reflexivity.
Qed.

Lemma filter_repeat_same {A} `{EqDecision A} (a : A) n :
  List.filter (fun k => bool_decide (k = a)) (repeat a n) = repeat a n.
Proof.
  induction n as [| n IH]; simpl; [reflexivity |].
  rewrite bool_decide_eq_true_2 by reflexivity. rewrite IH. reflexivity.
Qed.

Lemma filter_repeat_other {A} `{EqDecision A} (a b : A) n :
  a <> b -> List.filter (fun k => bool_decide (k = a)) (repeat b n) = [].
Proof.
  intros Hne. induction n as [| n IH]; simpl; [reflexivity |].
  rewrite bool_decide_eq_false_2 by congruence. exact IH.
Qed.

(** C1. When the host calls [handleClickOn] once per node for one click event
    that is not yet in the map, the clickMark chain is called on the first of
    these calls only and the click chain on every one of them: the chain calls
    are clickMark, click, click, ..., so the click chain runs as many times as
    there are nodes (three times for three levels) and the clickMark chain
    once, and the click chain sees the [direct] flag of each call as the host
    passed it. *)
Theorem click_chain_every_call_clickMark_once :
  forall view pos event targets s rpos,
    doc_resolve (currentState (store s)) pos = Ok rpos ->
    eventMap s !! event_id event = None ->
    targets <> [] ->
    exists rs s' added,
      handleClickOnEach getMarkRange view pos event targets s = (Ok rs, s') /\
      dispatched s' = dispatched s ++ added /\
      map dispatch_key added = ClickMark :: repeat Click (length targets) /\
      length (callsOf Click added) = length targets /\
      length (callsOf ClickMark added) = 1%nat /\
      clickDirects added = map target_direct targets.
Proof.
  intros view pos event targets s rpos Hresolve Hfresh Hne.
  destruct targets as [| t rest]; [congruence |].
  destruct (handleClickOn_run view pos (target_node t) (target_pos t) event
              (target_direct t) s rpos Hresolve)
    as (r & s1 & clickState & Hrun & Hlog & Hmap & Hstore & _ & _ & _ & Hdirect & _).
  rewrite Hfresh in Hlog.
  rewrite bool_decide_eq_false_2 in Hlog by (intros [x Hx]; discriminate).
  destruct (handleClickOnEach_handled view pos event rpos rest s1)
    as (rs & s2 & added & Hrest & Hlog2 & Hkeys & Hdirects & _).
  { rewrite Hstore. exact Hresolve. }
  { rewrite Hmap, lookup_insert_eq. eauto. }
  eexists (r :: rs), s2, (_ :: _ :: added).
  assert (Hall : map dispatch_key
                   (recorded ClickMark
                      (ClickMarkArgs event
                         (createClickMarkState getMarkRange
                            {| ccm_handled := false; ccm_rpos := rpos; ccm_view := view;
                               ccm_state := currentState (store s) |}))
                      (handlersFor ClickMark (mappedHandlers s))
                    :: {| dispatch_key := Click; dispatch_args := ClickArgs event clickState;
                          dispatch_results :=
                            fst (callHandlers (policyOf Click)
                                   (handlersFor Click (mappedHandlers s))
                                   (ClickArgs event clickState)) |}
                    :: added)
                 = ClickMark :: repeat Click (length (t :: rest))).
  { simpl. rewrite Hkeys. reflexivity. }
  split; [| split; [| split; [| split; [| split]]]].
  - simpl. unfold bind. rewrite Hrun, Hrest. reflexivity.
  - rewrite Hlog2, Hlog. rewrite <- app_assoc. reflexivity.
  - exact Hall.
  - rewrite callsOf_keys, Hall. simpl.
    rewrite filter_repeat_same, repeat_length. reflexivity.
  - rewrite callsOf_keys, Hall. simpl.
    rewrite filter_repeat_other by discriminate. reflexivity.
  - simpl. rewrite Hdirects, Hdirect. reflexivity.
Qed.

(** C10. On a call of [handleClickOn] for an event that is already in the map
    the state given to the click handlers has no mark ranges and a [getMark]
    that returns [undefined] whatever it is asked. Over the calls for one
    event, the state of the first call carries the mark ranges computed at the
    position and a [getMark] over them; the states of all later calls are
    without marks. *)
Theorem later_calls_have_no_marks :
  (forall view pos nd nodePos event direct_ s rpos,
     doc_resolve (currentState (store s)) pos = Ok rpos ->
     is_Some (eventMap s !! event_id event) ->
     exists r s' clickState results,
       handleClickOn getMarkRange view pos nd nodePos event direct_ s = (Ok r, s') /\
       dispatched s' =
         dispatched s
         ++ [{| dispatch_key := Click; dispatch_args := ClickArgs event clickState;
                dispatch_results := results |}] /\
       markRanges clickState = [] /\
       (forall markType, getMark clickState markType = Ok None)) /\
  (forall view pos event t rest s rpos,
     doc_resolve (currentState (store s)) pos = Ok rpos ->
     eventMap s !! event_id event = None ->
     exists rs s' added first later,
       handleClickOnEach getMarkRange view pos event (t :: rest) s = (Ok rs, s') /\
       dispatched s' = dispatched s ++ added /\
       clickStates added = first :: later /\
       markRanges first = collectMarkRanges getMarkRange rpos (marks rpos) /\
       (forall markType,
          getMark first markType =
          getMarkIn (schema (currentState (store s)))
            (collectMarkRanges getMarkRange rpos (marks rpos)) markType) /\
       length later = length rest /\
       Forall withoutMarks later).
Proof.
  split.
  - intros view pos nd nodePos event direct_ s rpos Hresolve Hhandled.
    destruct (handleClickOn_run view pos nd nodePos event direct_ s rpos Hresolve)
      as (r & s' & clickState & Hrun & Hlog & _ & _ & _ & HgetMark & Hranges & _).
    rewrite bool_decide_eq_true_2 in Hlog, HgetMark, Hranges by exact Hhandled.
    eexists r, s', clickState, _. split; [exact Hrun |]. split; [exact Hlog |].
    split; [exact Hranges |]. intros markType. rewrite HgetMark. reflexivity.
  - intros view pos event t rest s rpos Hresolve Hfresh.
    destruct (handleClickOn_run view pos (target_node t) (target_pos t) event
                (target_direct t) s rpos Hresolve)
      as (r & s1 & clickState & Hrun & Hlog & Hmap & Hstore & _ & HgetMark & Hranges & _).
    rewrite Hfresh in Hlog, HgetMark, Hranges.
    rewrite bool_decide_eq_false_2 in Hlog, HgetMark, Hranges
      by (intros [x Hx]; discriminate).
    destruct (handleClickOnEach_handled view pos event rpos rest s1)
      as (rs & s2 & added & Hrest & Hlog2 & _ & _ & Hlen & Hall).
    { rewrite Hstore. exact Hresolve. }
    { rewrite Hmap, lookup_insert_eq. eauto. }
    eexists (r :: rs), s2, (_ :: _ :: added), clickState, (clickStates added).
    split; [| split; [| split; [| split; [| split; [| split]]]]].
    + simpl. unfold bind. rewrite Hrun, Hrest. reflexivity.
    + rewrite Hlog2, Hlog. rewrite <- app_assoc. reflexivity.
    + reflexivity.
    + rewrite Hranges. reflexivity.
    + intros markType. rewrite HgetMark. reflexivity.
    + exact Hlen.
    + exact Hall.
Qed.

End ClickProperties.

(** ** Hover and contextmenu *)

Lemma range_down d : range (S d) 1 = S d :: rev (seq 1 d).
Proof.
  unfold range. destruct d as [| d].
  - reflexivity.
  - replace (S (S d) <=? 1)%nat with false by (symmetry; apply Nat.leb_gt; lia).
    replace (S (S d) + 1 - 1)%nat with (S (S d)) by lia.
    rewrite (seq_S (S d) 1), rev_app_distr. reflexivity.
Qed.

Lemma rmap_ok {A B} (f : A -> Result B) (g : A -> B) l :
  (forall a, In a l -> f a = Ok (g a)) -> rmap f l = Ok (map g l).
Proof.
  induction l as [| a l IH]; intros H; simpl; [reflexivity |].
  rewrite (H a) by (left; reflexivity). simpl.
  rewrite IH by (intros b Hb; apply H; right; exact Hb). reflexivity.
Qed.

Lemma nodeEntry_level rpos k :
  (1 <= k <= depth rpos)%nat ->
  nodeEntry rpos k = Ok (levelEntry rpos k) /\
  node rpos k = nwp_node (levelEntry rpos k) /\
  before rpos k = Ok (nwp_pos (levelEntry rpos k)) /\
  is_Some (nwp_node (levelEntry rpos k)).
Proof.
  intros Hk. destruct k as [| k]; [lia |].
  unfold nodeEntry, levelEntry, before, node, depth in *. simpl pred.
  destruct (rp_path rpos !! k) as [[n b] |] eqn:E.
  - replace (length (rp_path rpos) <? S k)%nat with false
      by (symmetry; apply Nat.ltb_ge; lia).
    rewrite decide_False by lia. simpl. eauto.
  - apply lookup_ge_None in E. lia.
Qed.

Lemma levelEntry_seq rpos :
  map (levelEntry rpos) (seq 1 (depth rpos)) = map entryOf (rp_path rpos).
Proof.
  apply list_eq. intros i. unfold depth.
  rewrite !list_lookup_fmap.
  destruct (rp_path rpos !! i) as [a |] eqn:E.
  - rewrite (lookup_seq_lt 1 (length (rp_path rpos)) i)
      by (apply lookup_lt_Some in E; exact E).
    simpl. unfold levelEntry. simpl. rewrite E. reflexivity.
  - rewrite lookup_seq_ge by (apply lookup_ge_None in E; exact E). reflexivity.
Qed.

(** The loop over [range (depth + 1) 1] never faults and builds [nodesOf]. *)
Lemma populate_nodes rpos :
  rmap (nodeEntry rpos) (range (depth rpos + 1) 1) = Ok (nodesOf rpos).
Proof.
  replace (depth rpos + 1)%nat with (S (depth rpos)) by lia.
  rewrite range_down. simpl.
  assert (Hfirst : nodeEntry rpos (S (depth rpos)) =
                   Ok {| nwp_node := nodeAfter rpos; nwp_pos := rp_pos rpos |}).
  { unfold nodeEntry, before, node.
    replace (depth rpos <? S (depth rpos))%nat with true
      by (symmetry; apply Nat.ltb_lt; lia).
    rewrite decide_True by reflexivity. simpl.
    destruct (nodeAfter rpos) as [after |] eqn:E; [reflexivity |].
    unfold depth. rewrite lookup_ge_None_2 by lia. reflexivity. }
  rewrite Hfirst. simpl.
  rewrite (rmap_ok (nodeEntry rpos) (levelEntry rpos)).
  - simpl. unfold nodesOf. rewrite map_rev, levelEntry_seq. reflexivity.
  - intros k Hk. apply in_rev, in_seq in Hk. apply nodeEntry_level. lia.
Qed.

Section MouseProperties.

Variable getMarkRange : ResolvedPos -> MarkType -> option GetMarkRange.

(** A mouse handler at a coordinate that resolves: the callback is called
    once, with the nodes and mark ranges of the position when the hit is
    inside content and with empty lists otherwise. *)
Lemma createMouseEventHandler_run fn view event s eventPosition rpos :
  getPositionFromEvent view event = Some eventPosition ->
  doc_resolve (view_state view) (ep_pos eventPosition) = Ok rpos ->
  createMouseEventHandler getMarkRange fn view event s =
  bind (fn (propsFor view event
              (if ep_inside eventPosition >? -1 then nodesOf rpos else [])
              (if ep_inside eventPosition >? -1
               then collectMarkRanges getMarkRange rpos (marks rpos) else [])))
       (capture event) s.
Proof.
  intros Hposition Hresolve. unfold createMouseEventHandler.
  rewrite Hposition. unfold bind at 1. unfold lift at 1. rewrite Hresolve.
  unfold bind at 1.
  destruct (ep_inside eventPosition >? -1).
  - unfold lift. rewrite populate_nodes. reflexivity.
  - reflexivity.
Qed.

Lemma rev_as_reverse {A} (l : list A) : rev l = reverse l.
Proof. unfold reverse. rewrite rev_alt. reflexivity. Qed.

Lemma nodesOf_levels rpos :
  nodesOf rpos =
  {| nwp_node := nodeAfter rpos; nwp_pos := rp_pos rpos |}
  :: rev (map (levelEntry rpos) (seq 1 (depth rpos))).
Proof. unfold nodesOf. rewrite levelEntry_seq. reflexivity. Qed.

Lemma nodesOf_lookup rpos i :
  (1 <= i <= depth rpos)%nat ->
  nodesOf rpos !! i = Some (levelEntry rpos (depth rpos + 1 - i)).
Proof.
  intros Hi. rewrite nodesOf_levels. destruct i as [| i]; [lia |]. simpl.
  rewrite rev_as_reverse, reverse_lookup by (rewrite length_map, length_seq; lia).
  rewrite length_map, length_seq, list_lookup_fmap.
  rewrite lookup_seq_lt by lia. simpl. f_equal. f_equal. lia.
Qed.

(** C2, as the code has it. For a hit inside content the nodes sequence of a
    hover or contextmenu dispatch has length depth + 1 and runs from the
    innermost entry outward: entry 0 is at the position itself and, where a
    node follows the position, holds that node, the one hit directly; entry
    [i], for [1 <= i <= depth], is the ancestor at depth [depth + 1 - i] with
    the position before it. Its last element, for a depth of at least 1, is
    therefore the ancestor at depth 1; the document root, at depth 0, is not
    an entry. For a hit outside content the sequence is empty. *)
Theorem nodes_chain_ends_at_depth_one :
  forall fn view event s eventPosition rpos,
    getPositionFromEvent view event = Some eventPosition ->
    doc_resolve (view_state view) (ep_pos eventPosition) = Ok rpos ->
    exists props,
      createMouseEventHandler getMarkRange fn view event s =
        bind (fn props) (capture event) s /\
      (ep_inside eventPosition > -1 ->
       length (props_nodes props) = (depth rpos + 1)%nat /\
       (exists innermost,
          props_nodes props !! 0%nat = Some innermost /\
          before rpos (depth rpos + 1) = Ok (nwp_pos innermost) /\
          nwp_pos innermost = rp_pos rpos /\
          (forall n, nodeAfter rpos = Some n -> nwp_node innermost = Some n)) /\
       (forall i,
          (1 <= i <= depth rpos)%nat ->
          exists n b,
            node rpos (depth rpos + 1 - i) = Some n /\
            before rpos (depth rpos + 1 - i) = Ok b /\
            props_nodes props !! i = Some {| nwp_node := Some n; nwp_pos := b |}) /\
       ((1 <= depth rpos)%nat ->
        exists n b,
          node rpos 1 = Some n /\
          before rpos 1 = Ok b /\
          props_nodes props !! (length (props_nodes props) - 1)%nat =
            Some {| nwp_node := Some n; nwp_pos := b |})) /\
      (ep_inside eventPosition <= -1 -> props_nodes props = []).
Proof.
  intros fn view event s eventPosition rpos Hposition Hresolve.
  assert (Hlevel : forall i,
            (1 <= i <= depth rpos)%nat ->
            exists n b,
              node rpos (depth rpos + 1 - i) = Some n /\
              before rpos (depth rpos + 1 - i) = Ok b /\
              nodesOf rpos !! i = Some {| nwp_node := Some n; nwp_pos := b |}).
  { intros i Hi.
    destruct (nodeEntry_level rpos (depth rpos + 1 - i)) as (_ & Hnode & Hbefore & [n Hn]);
      [lia |].
    exists n, (nwp_pos (levelEntry rpos (depth rpos + 1 - i))).
    rewrite Hnode, Hbefore, nodesOf_lookup by exact Hi.
    split; [exact Hn |]. split; [reflexivity |].
    destruct (levelEntry rpos (depth rpos + 1 - i)) as [n' b']. simpl in *.
    rewrite Hn. reflexivity. }
  assert (Hlen : length (nodesOf rpos) = (depth rpos + 1)%nat).
  { unfold nodesOf, depth. simpl. rewrite length_rev, length_map. lia. }
  eexists. split.
  { apply (createMouseEventHandler_run fn view event s eventPosition rpos Hposition Hresolve). }
  cbn [propsFor props_nodes]. split.
  - intros Hinside.
    assert (Hin : (ep_inside eventPosition >? -1) = true) by (apply Z.gtb_lt; lia).
    rewrite Hin.
    split; [exact Hlen |]. split; [| split].
    + eexists. split; [reflexivity |]. cbn [nwp_pos nwp_node]. split; [| split].
      * unfold before. replace (depth rpos + 1)%nat with (S (depth rpos)) by lia.
        rewrite decide_True by reflexivity. reflexivity.
      * reflexivity.
      * intros n Hn. exact Hn.
    + exact Hlevel.
    + intros Hdepth. rewrite Hlen.
      destruct (Hlevel (depth rpos)) as (n & b & Hnode & Hbefore & Hlook); [lia |].
      replace (depth rpos + 1 - depth rpos)%nat with 1%nat in * by lia.
      replace (depth rpos + 1 - 1)%nat with (depth rpos) by lia.
      exists n, b. auto.
  - intros Houtside.
    assert (Hout : (ep_inside eventPosition >? -1) = false).
    { destruct (Z.gtb_spec (ep_inside eventPosition) (-1)); [lia | reflexivity]. }
    rewrite Hout. reflexivity.
Qed.

(** C7. A hover or contextmenu event whose coordinate does not resolve calls
    no handler and the dispatch returns false. When the coordinate resolves
    outside the content ([inside] is -1) the handlers are called all the same,
    with empty lists of nodes and marks, and the dispatch returns without a
    fault. *)
Theorem unresolved_and_outside_hits :
  (forall view event s,
     getPositionFromEvent view event = None ->
     handleDOMEvents_mouseover getMarkRange view event s = (Ok false, s) /\
     handleDOMEvents_mouseout getMarkRange view event s = (Ok false, s) /\
     handleDOMEvents_contextmenu getMarkRange view event s = (Ok false, s)) /\
  (forall view event s pos rpos,
     getPositionFromEvent view event = Some {| ep_pos := pos; ep_inside := -1 |} ->
     doc_resolve (view_state view) pos = Ok rpos ->
     let props := propsFor view event [] [] in
     let over := HoverArgs {| hover_props := props; hovering := true |} in
     let out := HoverArgs {| hover_props := props; hovering := false |} in
     let menu := ContextmenuArgs props in
     props_nodes props = [] /\
     props_marks props = [] /\
     (exists s',
        handleDOMEvents_mouseover getMarkRange view event s =
          (Ok (existsb (fun h => truthy (h over)) (handlersFor Hover (mappedHandlers s))),
           s') /\
        dispatched s' =
          dispatched s ++ [recorded Hover over (handlersFor Hover (mappedHandlers s))]) /\
     (exists s',
        handleDOMEvents_mouseout getMarkRange view event s =
          (Ok (existsb (fun h => truthy (h out)) (handlersFor Hover (mappedHandlers s))),
           s') /\
        dispatched s' =
          dispatched s ++ [recorded Hover out (handlersFor Hover (mappedHandlers s))]) /\
     (exists s',
        handleDOMEvents_contextmenu getMarkRange view event s =
          (Ok (existsb (fun h => truthy (h menu))
                 (handlersFor Contextmenu (mappedHandlers s))),
           s') /\
        dispatched s' =
          dispatched s
          ++ [recorded Contextmenu menu (handlersFor Contextmenu (mappedHandlers s))])).
Proof.
  split.
  - intros view event s Hnone.
    unfold handleDOMEvents_mouseover, handleDOMEvents_mouseout, handleDOMEvents_contextmenu,
      createMouseEventHandler.
    rewrite Hnone. repeat split.
  - intros view event s pos rpos Hposition Hresolve props over out menu.
    split; [reflexivity |]. split; [reflexivity |].
    unfold handleDOMEvents_mouseover, handleDOMEvents_mouseout, handleDOMEvents_contextmenu.
    rewrite !(createMouseEventHandler_run _ view event s _ rpos Hposition Hresolve).
    cbn [ep_inside]. change (-1 >? -1) with false. cbv iota.
    fold props. fold over. fold out. fold menu.
    unfold bind. rewrite !options_all by reflexivity.
    unfold ret, capture, bind, preventDefault, modify. rewrite !orb_false_r.
    repeat split.
    + destruct (existsb (fun h => truthy (h over)) (handlersFor Hover (mappedHandlers s)));
        eexists; split; reflexivity.
    + destruct (existsb (fun h => truthy (h out)) (handlersFor Hover (mappedHandlers s)));
        eexists; split; reflexivity.
    + destruct (existsb (fun h => truthy (h menu))
                  (handlersFor Contextmenu (mappedHandlers s)));
        eexists; split; reflexivity.
Qed.

(** ** Looking up node and mark types *)

Lemma getMarkIn_missing sch ranges name :
  schema_marks sch !! name = None ->
  getMarkIn sch ranges (ByName name) = Throw (markFault name).
Proof. intros H. unfold getMarkIn. simpl. rewrite H. reflexivity. Qed.

Lemma getMarkIn_no_match sch ranges name type :
  schema_marks sch !! name = Some type ->
  Forall (fun r => mark_type (range_mark r) <> type) ranges ->
  getMarkIn sch ranges (ByName name) = Ok None.
Proof.
  intros H Hall. unfold getMarkIn. simpl. rewrite H. simpl. f_equal.
  unfold findMarkRange. induction Hall as [| r rest Hr _ IH]; simpl; [reflexivity |].
  rewrite bool_decide_eq_false_2 by exact Hr. exact IH.
Qed.

Lemma getNodeIn_missing sch nodes name :
  schema_nodes sch !! name = None ->
  getNodeIn sch nodes (ByName name) = Throw nodeFault.
Proof. intros H. unfold getNodeIn. simpl. rewrite H. reflexivity. Qed.

Lemma getNodeIn_no_match sch nodes name type :
  schema_nodes sch !! name = Some type ->
  Forall (fun entry => exists n, nwp_node entry = Some n /\ node_type n <> type) nodes ->
  getNodeIn sch nodes (ByName name) = Ok None.
Proof.
  intros H Hall. unfold getNodeIn. simpl. rewrite H. simpl.
  assert (Hfind : findNode nodes type = Ok None).
  { induction Hall as [| entry rest (n & Hn & Hne) _ IH]; simpl; [reflexivity |].
    rewrite Hn. rewrite decide_False by exact Hne. exact IH. }
  rewrite Hfind. reflexivity.
Qed.

(** C6, as the code has it. A lookup by a name that the schema does not have
    halts with a descriptive fault in [getNode] of every click call, in
    [getMark] of the first click call for an event and of the clickMark state,
    and in [getNode] and [getMark] of hover and contextmenu. A lookup by a
    name of the schema that does not match returns [undefined]: [getNode] of
    a click call when the type is not that of the node, [getMark] when no
    range at the position has the type, and [getNode] of hover and
    contextmenu when every entry has a node and none has the type. *)
Theorem lookups_fault_on_missing_types :
  (forall view pos nd nodePos event direct_ s rpos,
     doc_resolve (currentState (store s)) pos = Ok rpos ->
     let sch := schema (currentState (store s)) in
     exists r s' clickState results earlier,
       handleClickOn getMarkRange view pos nd nodePos event direct_ s = (Ok r, s') /\
       dispatched s' =
         earlier
         ++ [{| dispatch_key := Click; dispatch_args := ClickArgs event clickState;
                dispatch_results := results |}] /\
       (forall name,
          schema_nodes sch !! name = None ->
          getNode clickState (ByName name) = Throw nodeFault) /\
       (forall name type,
          schema_nodes sch !! name = Some type ->
          type <> node_type nd ->
          getNode clickState (ByName name) = Ok None) /\
       (eventMap s !! event_id event = None ->
        (forall name,
           schema_marks sch !! name = None ->
           getMark clickState (ByName name) = Throw (markFault name)) /\
        (forall name type,
           schema_marks sch !! name = Some type ->
           Forall (fun r => mark_type (range_mark r) <> type) (markRanges clickState) ->
           getMark clickState (ByName name) = Ok None))) /\
  (forall rpos view state,
     let markState :=
       createClickMarkState getMarkRange
         {| ccm_handled := false; ccm_rpos := rpos; ccm_view := view; ccm_state := state |} in
     (forall name,
        schema_marks (schema state) !! name = None ->
        cm_getMark markState (ByName name) = Throw (markFault name)) /\
     (forall name type,
        schema_marks (schema state) !! name = Some type ->
        Forall (fun r => mark_type (range_mark r) <> type) (cm_markRanges markState) ->
        cm_getMark markState (ByName name) = Ok None)) /\
  (forall fn view event s eventPosition rpos,
     getPositionFromEvent view event = Some eventPosition ->
     doc_resolve (view_state view) (ep_pos eventPosition) = Ok rpos ->
     let sch := schema (view_state view) in
     exists props,
       createMouseEventHandler getMarkRange fn view event s =
         bind (fn props) (capture event) s /\
       (forall name,
          schema_nodes sch !! name = None ->
          props_getNode props (ByName name) = Throw nodeFault) /\
       (forall name type,
          schema_nodes sch !! name = Some type ->
          Forall (fun entry => exists n, nwp_node entry = Some n /\ node_type n <> type)
            (props_nodes props) ->
          props_getNode props (ByName name) = Ok None) /\
       (forall name,
          schema_marks sch !! name = None ->
          props_getMark props (ByName name) = Throw (markFault name)) /\
       (forall name type,
          schema_marks sch !! name = Some type ->
          Forall (fun r => mark_type (range_mark r) <> type) (props_marks props) ->
          props_getMark props (ByName name) = Ok None)).
Proof.
  split; [| split].
  - intros view pos nd nodePos event direct_ s rpos Hresolve sch.
    destruct (handleClickOn_run getMarkRange view pos nd nodePos event direct_ s rpos Hresolve)
      as (r & s' & clickState & Hrun & Hlog & _ & _ & _ & HgetMark & Hranges & _ & _ & _
          & HgetNode).
    eexists r, s', clickState, _, _. split; [exact Hrun |].
    split; [rewrite Hlog, app_assoc; reflexivity |].
    split; [| split].
    + intros name Hname. rewrite HgetNode. simpl. fold sch. rewrite Hname. reflexivity.
    + intros name type Hname Hne. rewrite HgetNode. simpl. fold sch. rewrite Hname. simpl.
      rewrite decide_False by exact Hne. reflexivity.
    + intros Hfresh. rewrite Hfresh in HgetMark, Hranges.
      rewrite bool_decide_eq_false_2 in HgetMark, Hranges by (intros [x Hx]; discriminate).
      rewrite HgetMark, Hranges. cbn [createClickMarkState ccm_handled ccm_state ccm_rpos
        ccm_view cm_getMark cm_markRanges]. split.
      * intros name Hname. apply getMarkIn_missing, Hname.
      * intros name type Hname Hall. eapply getMarkIn_no_match; eauto.
  - intros rpos view state markState. subst markState.
    cbn [createClickMarkState ccm_handled ccm_state ccm_rpos ccm_view cm_getMark
      cm_markRanges]. split.
    + intros name Hname. apply getMarkIn_missing, Hname.
    + intros name type Hname Hall. eapply getMarkIn_no_match; eauto.
  - intros fn view event s eventPosition rpos Hposition Hresolve sch.
    eexists. split.
    { apply (createMouseEventHandler_run fn view event s eventPosition rpos Hposition Hresolve). }
    cbn [propsFor props_getNode props_getMark props_nodes props_marks]. fold sch.
    split; [| split; [| split]].
    + intros name Hname. apply getNodeIn_missing, Hname.
    + intros name type Hname Hall. eapply getNodeIn_no_match; eauto.
    + intros name Hname. apply getMarkIn_missing, Hname.
    + intros name type Hname Hall. eapply getMarkIn_no_match; eauto.
Qed.

End MouseProperties.

(** * Further properties of the extension *)

(** ** Pressing and releasing *)

Lemma endMouseover_eq s :
  endMouseover s =
  (Ok tt,
   if mousedown s then set_emptyUpdates (S (emptyUpdates s)) (set_mousedown false s) else s).
Proof.
  unfold endMouseover, bind, read, modify, ret. destruct (mousedown s); reflexivity.
Qed.

Lemma startMouseover_eq s :
  startMouseover s =
  (Ok tt,
   if mousedown s then set_mouseover true s
   else set_documentMouseupOnce (S (documentMouseupOnce s))
          (set_mousedown true (set_mouseover true s))).
Proof.
  unfold startMouseover, bind, read, modify, ret. simpl.
  destruct (mousedown s); reflexivity.
Qed.

(** X1. Pressing twice is pressing once, and releasing twice is releasing
    once: a second [startMouseover] changes nothing, and in particular a
    second mousedown adds no second listener to the document element; a
    second [endMouseover] changes nothing and calls [emptyUpdate] no more. *)
Theorem press_and_release_are_idempotent :
  (forall s, after startMouseover (after startMouseover s) = after startMouseover s) /\
  (forall s, after endMouseover (after endMouseover s) = after endMouseover s) /\
  (forall s first second,
     let pressed := after (handleDOMEvents_mousedown first) s in
     documentMouseupOnce (after (handleDOMEvents_mousedown second) pressed) =
     documentMouseupOnce pressed).
Proof.
  split; [| split].
  - intros s. unfold after. rewrite !startMouseover_eq. simpl.
    destruct s as [down over hs st em once ups log prevented]. simpl.
    destruct down; reflexivity.
  - intros s. unfold after. rewrite !endMouseover_eq. simpl.
    destruct s as [down over hs st em once ups log prevented]. simpl.
    destruct down; reflexivity.
  - intros s first second pressed. subst pressed.
    destruct (mousedown_flags first s) as (Hd & _ & _).
    destruct (mousedown_flags second (after (handleDOMEvents_mousedown first) s))
      as (_ & _ & Hl).
    rewrite Hl, Hd. reflexivity.
Qed.

Lemma times_idle n :
  forall s, mousedown s = false -> times n endMouseover s = (Ok tt, s).
Proof.
  induction n as [| n IH]; intros s Hs; simpl; [reflexivity |].
  unfold bind. rewrite endMouseover_eq, Hs. apply IH, Hs.
Qed.

Lemma times_pressed n s :
  mousedown s = true ->
  times (S n) endMouseover s =
  (Ok tt, set_emptyUpdates (S (emptyUpdates s)) (set_mousedown false s)).
Proof.
  intros Hs. simpl. unfold bind. rewrite endMouseover_eq, Hs.
  apply times_idle. reflexivity.
Qed.

Lemma handleDOMEvents_mouseup_eq event s :
  exists r log,
    handleDOMEvents_mouseup event s =
    (Ok r,
     set_dispatched log
       (if mousedown s then set_emptyUpdates (S (emptyUpdates s)) (set_mousedown false s)
        else s)).
Proof.
  unfold handleDOMEvents_mouseup, bind. rewrite endMouseover_eq, options_run.
  unfold ret. eexists _, _. reflexivity.
Qed.

Section FurtherFlags.

Variable getMarkRange : ResolvedPos -> MarkType -> option GetMarkRange.

Lemma mouseup_inside_state event s :
  let s' := after (deliver getMarkRange (MouseupInside event)) s in
  mousedown s' = false /\
  mouseover s' = mouseover s /\
  documentMouseupOnce s' = 0%nat /\
  emptyUpdates s' = (emptyUpdates s + (if mousedown s then 1 else 0))%nat.
Proof.
  intros s'. subst s'. simpl. unfold after, bind.
  destruct (handleDOMEvents_mouseup_eq event s) as (r & log & ->).
  unfold documentElement_mouseup, bind, read, modify.
  rewrite times_idle by (destruct (mousedown s) eqn:E; [reflexivity | exact E]).
  unfold ret. destruct (mousedown s) eqn:E; simpl; rewrite ?E; repeat split; lia.
Qed.

Lemma mouseup_outside_state event s :
  let s' := after (deliver getMarkRange (MouseupOutside event)) s in
  emptyUpdates s' =
    (emptyUpdates s
     + (if mousedown s then (if documentMouseupOnce s is O then 0 else 1) else 0))%nat.
Proof.
  intros s'. subst s'. simpl. unfold after, bind.
  unfold documentElement_mouseup, bind, read, modify.
  destruct (mousedown s) eqn:Ed.
  - destruct (documentMouseupOnce s) as [| n] eqn:En.
    + simpl. lia.
    + rewrite times_pressed by exact Ed. simpl. lia.
  - rewrite times_idle by exact Ed. simpl. lia.
Qed.

Lemma deliver_keepsFlags ev s :
  leavesFlags ev = true -> keepsFlags s (after (deliver getMarkRange ev) s).
Proof.
  destruct ev as [e | e | e | e | e | e | e | v e | v e | v e | v p e ts];
    simpl; try discriminate; intros _.
  - apply or_false_keepsFlags.
  - apply or_false_keepsFlags.
  - apply createMouseEventHandler_keepsFlags. intros; apply hover_keepsFlags.
  - apply createMouseEventHandler_keepsFlags. intros; apply hover_keepsFlags.
  - apply createMouseEventHandler_keepsFlags. intros; apply or_false_keepsFlags.
  - apply bind_keepsFlags; [apply handleClickOnEach_keepsFlags | intros; apply keepsFlags_refl].
Qed.

Lemma keepsFlags_oneListener s s' : keepsFlags s s' -> oneListener s -> oneListener s'.
Proof. unfold keepsFlags, oneListener. intros (Hd & _ & Hl) H. rewrite Hd, Hl. exact H. Qed.

(** X2. In every state the extension can be in, a listener waits on the
    document element exactly while the interacting flag is up, and never more
    than one: presses do not pile up listeners and a release leaves none
    behind. *)
Theorem one_listener_while_pressed :
  forall s,
    reachable getMarkRange s ->
    documentMouseupOnce s = if mousedown s then 1%nat else 0%nat.
Proof.
  intros s Hreach. change (oneListener s).
  induction Hreach as [st | s _ IH | s key handler _ IH | s ev _ IH].
  - reflexivity.
  - eapply keepsFlags_oneListener; [apply onView_keepsFlags | exact IH].
  - eapply keepsFlags_oneListener; [apply addHandler_keepsFlags | exact IH].
  - destruct (leavesFlags ev) eqn:Eev.
    + eapply keepsFlags_oneListener; [apply deliver_keepsFlags, Eev | exact IH].
    + unfold oneListener in *.
      destruct ev as [e | e | e | e | e | e | e | v e | v e | v e | v p e ts];
        try discriminate.
      * change (deliver getMarkRange (MousedownInside e)) with (handleDOMEvents_mousedown e).
        destruct (mousedown_flags e s) as (Hd & _ & Hl). rewrite Hd, Hl, IH.
        destruct (mousedown s); reflexivity.
      * destruct (mouseup_inside_state e s) as (Hd & _ & Hl & _). rewrite Hd, Hl. reflexivity.
      * destruct (mouseup_outside_flags getMarkRange e s) as (Hd & _ & Hl).
        rewrite Hd, Hl, IH. destruct (mousedown s); reflexivity.
      * change (deliver getMarkRange (MouseleaveEditor e)) with (handleDOMEvents_mouseleave e).
        destruct (mouseleave_flags e s) as (Hd & _ & Hl). rewrite Hd, Hl. exact IH.
      * change (deliver getMarkRange (MouseenterEditor e)) with (handleDOMEvents_mouseenter e).
        destruct (mouseenter_flags e s) as (Hd & _ & Hl). rewrite Hd, Hl. exact IH.
Qed.

(** X3. A release calls [commands.emptyUpdate] exactly once, whether the
    mouseup lands inside the editor (where both the handler of the editor and
    the listener of the document element run) or outside of it; a mouseup
    that follows no mousedown calls it not at all. *)
Theorem release_refreshes_once :
  forall s inside outside,
    reachable getMarkRange s ->
    emptyUpdates (after (deliver getMarkRange (MouseupInside inside)) s) =
      (emptyUpdates s + (if mousedown s then 1 else 0))%nat /\
    emptyUpdates (after (deliver getMarkRange (MouseupOutside outside)) s) =
      (emptyUpdates s + (if mousedown s then 1 else 0))%nat.
Proof.
  intros s inside outside Hreach. split.
  - apply mouseup_inside_state.
  - rewrite mouseup_outside_state.
    apply reachable_listening in Hreach. unfold listening in Hreach.
    destruct (mousedown s); [| reflexivity].
    destruct (documentMouseupOnce s); [specialize (Hreach eq_refl); lia | reflexivity].
Qed.

(** X4. Focus, blur, hover, contextmenu and click never touch the two flags:
    [isInteracting] answers after them what it answered before. *)
Theorem other_events_leave_interaction_alone :
  forall ev s,
    leavesFlags ev = true ->
    mousedown (after (deliver getMarkRange ev) s) = mousedown s /\
    mouseover (after (deliver getMarkRange ev) s) = mouseover s /\
    isInteracting (after (deliver getMarkRange ev) s) = isInteracting s.
Proof.
  intros ev s Hev. destruct (deliver_keepsFlags ev s Hev) as (Hd & Ho & _).
  unfold isInteracting. rewrite Hd, Ho. auto.
Qed.

(** X5. Leaving the editor makes [isInteracting] false but keeps the press:
    the interacting flag and the waiting listener stay as they are, and once
    the pointer is back [isInteracting] is the interacting flag again. *)
Theorem leaving_keeps_the_press :
  forall s leave enter,
    let left := after (deliver getMarkRange (MouseleaveEditor leave)) s in
    let back := after (deliver getMarkRange (MouseenterEditor enter)) left in
    isInteracting left = false /\
    mousedown left = mousedown s /\
    documentMouseupOnce left = documentMouseupOnce s /\
    isInteracting back = mousedown s /\
    documentMouseupOnce back = documentMouseupOnce s.
Proof.
  intros s leave enter left back. subst left back.
  change (deliver getMarkRange (MouseleaveEditor leave))
    with (handleDOMEvents_mouseleave leave).
  change (deliver getMarkRange (MouseenterEditor enter))
    with (handleDOMEvents_mouseenter enter).
  destruct (mouseleave_flags leave s) as (Hd & Ho & Hl).
  destruct (mouseenter_flags enter (after (handleDOMEvents_mouseleave leave) s))
    as (Hd' & Ho' & Hl').
  unfold isInteracting. rewrite Hd', Ho', Hl', Hd, Ho, Hl.
  repeat split; [apply andb_false_r | apply andb_true_r].
Qed.

End FurtherFlags.

(** ** Clicks *)

Lemma callHandlers_aggregate policy handlers args :
  snd (callHandlers policy handlers args) =
  existsb truthy (fst (callHandlers policy handlers args)).
Proof.
  destruct policy; simpl; [| reflexivity].
  induction handlers as [| h rest IH]; simpl; [reflexivity |].
  destruct (truthy (h args)) eqn:E; simpl.
  - rewrite E. reflexivity.
  - destruct (callEarlyReturn rest args) as [rs b]. simpl in *. rewrite E. exact IH.
Qed.

Section FurtherClicks.

Variable getMarkRange : ResolvedPos -> MarkType -> option GetMarkRange.

(** One call of [handleClickOn] at a position that resolves, with everything
    it does to the extension. *)
Lemma handleClickOn_effect view pos nd nodePos event direct_ s rpos :
  doc_resolve (currentState (store s)) pos = Ok rpos ->
  exists r s' added,
    handleClickOn getMarkRange view pos nd nodePos event direct_ s = (Ok r, s') /\
    dispatched s' = dispatched s ++ added /\
    map dispatch_key added =
      (if bool_decide (is_Some (eventMap s !! event_id event)) then [] else [ClickMark])
      ++ [Click] /\
    r = existsb (fun d => existsb truthy (dispatch_results d)) added /\
    eventMap s' = <[event_id event := true]> (eventMap s) /\
    store s' = store s /\
    mappedHandlers s' = mappedHandlers s /\
    defaultPrevented s' = defaultPrevented s /\
    emptyUpdates s' = emptyUpdates s.
Proof.
  intros Hresolve.
  unfold handleClickOn, bind, read, lift, modify, ret. rewrite Hresolve.
  destruct (bool_decide (is_Some (eventMap s !! event_id event))) eqn:Eh; cbn [negb].
  - rewrite options_run. cbn [fst snd].
    match goal with
    | |- context [callHandlers ?p ?h ?a] =>
        pose proof (callHandlers_aggregate p h a) as Hclick;
        destruct (callHandlers p h a) as [results aggregate]
    end.
    cbn [fst snd] in *. subst aggregate.
    eexists _, _, [_]. split; [reflexivity |].
    cbn. rewrite !orb_false_r. repeat split.
  - rewrite !options_run. cbn [fst snd].
    match goal with
    | |- context [callHandlers (policyOf Click) ?h ?a] =>
        pose proof (callHandlers_aggregate (policyOf Click) h a) as Hclick;
        destruct (callHandlers (policyOf Click) h a) as [results aggregate]
    end.
    match goal with
    | |- context [callHandlers (policyOf ClickMark) ?h ?a] =>
        pose proof (callHandlers_aggregate (policyOf ClickMark) h a) as Hmark;
        destruct (callHandlers (policyOf ClickMark) h a) as [results' aggregate']
    end.
    cbn [fst snd] in *. subst aggregate aggregate'.
    eexists _, _, [_; _]. split; [reflexivity |].
    cbn. rewrite <- app_assoc. rewrite !orb_false_r.
    repeat split. apply orb_comm.
Qed.

(** Calls of [handleClickOn] for one event, one per target. *)
Lemma handleClickOnEach_effect view pos event rpos targets :
  forall s,
    doc_resolve (currentState (store s)) pos = Ok rpos ->
    exists rs s' added,
      handleClickOnEach getMarkRange view pos event targets s = (Ok rs, s') /\
      dispatched s' = dispatched s ++ added /\
      map dispatch_key added =
        (match targets with
         | [] => []
         | _ :: _ =>
             if bool_decide (is_Some (eventMap s !! event_id event)) then []
             else [ClickMark]
         end) ++ repeat Click (length targets) /\
      eventMap s' =
        (match targets with
         | [] => eventMap s
         | _ :: _ => <[event_id event := true]> (eventMap s)
         end) /\
      store s' = store s /\
      mappedHandlers s' = mappedHandlers s /\
      defaultPrevented s' = defaultPrevented s.
Proof.
  induction targets as [| t rest IH]; intros s Hresolve.
  - exists [], s, []. simpl. rewrite app_nil_r. repeat split.
  - destruct (handleClickOn_effect view pos (target_node t) (target_pos t) event
                (target_direct t) s rpos Hresolve)
      as (r & s1 & added1 & Hrun & Hlog & Hkeys & _ & Hmap & Hstore & Hhs & Hprev & _).
    destruct (IH s1) as (rs & s2 & added2 & Hrest & Hlog2 & Hkeys2 & Hmap2 & Hstore2
                         & Hhs2 & Hprev2).
    { rewrite Hstore. exact Hresolve. }
    exists (r :: rs), s2, (added1 ++ added2).
    split; [simpl; unfold bind; rewrite Hrun, Hrest; reflexivity |].
    split; [rewrite Hlog2, Hlog, app_assoc; reflexivity |].
    split.
    { rewrite map_app, Hkeys, Hkeys2, Hmap, lookup_insert_eq.
      rewrite (bool_decide_eq_true_2 (is_Some (Some true))) by eauto.
      rewrite <- app_assoc. simpl. destruct rest; reflexivity. }
    split.
    { rewrite Hmap2, Hmap. destruct rest; [reflexivity | apply insert_insert_eq]. }
    repeat split; congruence.
Qed.

(** X6. [handleClickOn] answers true exactly when one of the handlers that ran
    during the call, of the clickMark chain or of the click chain, returned a
    truthy value; it records the event in the map and never calls
    [preventDefault] or [emptyUpdate] itself. *)
Theorem click_is_handled_when_a_handler_says_so :
  forall view pos nd nodePos event direct_ s rpos,
    doc_resolve (currentState (store s)) pos = Ok rpos ->
    exists r s' added,
      handleClickOn getMarkRange view pos nd nodePos event direct_ s = (Ok r, s') /\
      dispatched s' = dispatched s ++ added /\
      r = existsb (fun d => existsb truthy (dispatch_results d)) added /\
      eventMap s' !! event_id event = Some true /\
      defaultPrevented s' = defaultPrevented s /\
      emptyUpdates s' = emptyUpdates s.
Proof.
  intros view pos nd nodePos event direct_ s rpos Hresolve.
  destruct (handleClickOn_effect view pos nd nodePos event direct_ s rpos Hresolve)
    as (r & s' & added & Hrun & Hlog & _ & Hr & Hmap & _ & _ & Hprev & Hups).
  exists r, s', added. rewrite Hmap, lookup_insert_eq.
  repeat split; assumption.
Qed.

(** X7. The map of handled events keeps clicks apart. After the calls for one
    click, the calls for a click with another event object that is not in the
    map run the clickMark chain again, once, on their first call; calls that
    come with the same event object again run the click chain only. *)
Theorem each_click_event_runs_clickMark_once :
  forall view pos pos' event event' targets targets' s rpos rpos',
    doc_resolve (currentState (store s)) pos = Ok rpos ->
    doc_resolve (currentState (store s)) pos' = Ok rpos' ->
    targets <> [] ->
    targets' <> [] ->
    exists rs s1,
      handleClickOnEach getMarkRange view pos event targets s = (Ok rs, s1) /\
      (event_id event' <> event_id event ->
       eventMap s !! event_id event' = None ->
       exists rs' s2 added,
         handleClickOnEach getMarkRange view pos' event' targets' s1 = (Ok rs', s2) /\
         dispatched s2 = dispatched s1 ++ added /\
         map dispatch_key added = ClickMark :: repeat Click (length targets')) /\
      (event_id event' = event_id event ->
       exists rs' s2 added,
         handleClickOnEach getMarkRange view pos' event' targets' s1 = (Ok rs', s2) /\
         dispatched s2 = dispatched s1 ++ added /\
         map dispatch_key added = repeat Click (length targets')).
Proof.
  intros view pos pos' event event' targets targets' s rpos rpos' Hresolve Hresolve'
    Hne Hne'.
  destruct (handleClickOnEach_effect view pos event rpos targets s Hresolve)
    as (rs & s1 & added1 & Hrun & _ & _ & Hmap & Hstore & _).
  exists rs, s1. split; [exact Hrun |].
  assert (Hres1 : doc_resolve (currentState (store s1)) pos' = Ok rpos')
    by (rewrite Hstore; exact Hresolve').
  destruct (handleClickOnEach_effect view pos' event' rpos' targets' s1 Hres1)
    as (rs' & s2 & added & Hrun' & Hlog' & Hkeys' & _).
  destruct targets as [| t rest]; [congruence |].
  destruct targets' as [| t' rest']; [congruence |].
  split.
  - intros Hother Hfresh. exists rs', s2, added.
    split; [exact Hrun' |]. split; [exact Hlog' |].
    rewrite Hkeys', Hmap, lookup_insert_ne by congruence. rewrite Hfresh.
    rewrite bool_decide_eq_false_2 by (intros [x Hx]; discriminate). reflexivity.
  - intros Hsame. exists rs', s2, added.
    split; [exact Hrun' |]. split; [exact Hlog' |].
    rewrite Hkeys', Hmap, Hsame, lookup_insert_eq.
    rewrite bool_decide_eq_true_2 by eauto. reflexivity.
Qed.

(** X8. When the position does not resolve, the fault of [doc.resolve] comes
    out of [handleClickOn] and of the mouse handlers as it is, and nothing
    has happened: no chain was called, the event is not in the map, and
    [preventDefault] was not called. *)
Theorem unresolved_position_faults_before_any_effect :
  (forall view pos nd nodePos event direct_ s fault,
     doc_resolve (currentState (store s)) pos = Throw fault ->
     handleClickOn getMarkRange view pos nd nodePos event direct_ s = (Throw fault, s)) /\
  (forall fn view event s eventPosition fault,
     getPositionFromEvent view event = Some eventPosition ->
     doc_resolve (view_state view) (ep_pos eventPosition) = Throw fault ->
     createMouseEventHandler getMarkRange fn view event s = (Throw fault, s)).
Proof.
  split.
  - intros view pos nd nodePos event direct_ s fault Hresolve.
    unfold handleClickOn, bind, read, lift. rewrite Hresolve. reflexivity.
  - intros fn view event s eventPosition fault Hposition Hresolve.
    unfold createMouseEventHandler. rewrite Hposition.
    unfold bind, lift. rewrite Hresolve. reflexivity.
Qed.

End FurtherClicks.

(** ** Hover and contextmenu, continued *)

Section FurtherMouse.

Variable getMarkRange : ResolvedPos -> MarkType -> option GetMarkRange.

(** A mouse handler over a chain, at a coordinate that resolves. *)
Lemma mouse_dispatch_effect key (mk : MouseEventHandlerProps -> Payload) view event s
  eventPosition rpos :
  getPositionFromEvent view event = Some eventPosition ->
  doc_resolve (view_state view) (ep_pos eventPosition) = Ok rpos ->
  let props :=
    propsFor view event
      (if ep_inside eventPosition >? -1 then nodesOf rpos else [])
      (if ep_inside eventPosition >? -1
       then collectMarkRanges getMarkRange rpos (marks rpos) else []) in
  let outcome :=
    callHandlers (policyOf key) (handlersFor key (mappedHandlers s)) (mk props) in
  createMouseEventHandler getMarkRange
    (fun props => let* r := options key (mk props) in ret (r || false)) view event s =
  (Ok (snd outcome),
   (if snd outcome
    then set_defaultPrevented (defaultPrevented s ++ [event_id event])
    else fun s1 => s1)
     (set_dispatched
        (dispatched s
         ++ [{| dispatch_key := key; dispatch_args := mk props;
                dispatch_results := fst outcome |}]) s)).
Proof.
  intros Hposition Hresolve props outcome.
  rewrite (createMouseEventHandler_run getMarkRange _ view event s eventPosition rpos
             Hposition Hresolve).
  fold props. unfold bind. rewrite options_run. fold outcome.
  unfold ret, capture, bind, preventDefault, modify. rewrite orb_false_r.
  destruct (snd outcome); reflexivity.
Qed.

Lemma mouse_dispatch_captured key mk view event s eventPosition rpos :
  getPositionFromEvent view event = Some eventPosition ->
  doc_resolve (view_state view) (ep_pos eventPosition) = Ok rpos ->
  capturedWhenHandled key mk event s
    (createMouseEventHandler getMarkRange
       (fun props => let* r := options key (mk props) in ret (r || false)) view event s).
Proof.
  intros Hposition Hresolve.
  rewrite (mouse_dispatch_effect key mk view event s eventPosition rpos Hposition Hresolve).
  cbv zeta.
  match goal with
  | |- context [callHandlers ?p ?h ?a] =>
      pose proof (callHandlers_aggregate p h a) as Hagg;
      destruct (callHandlers p h a) as [results aggregate]
  end.
  cbn [fst snd] in *. subst aggregate.
  eexists _, _, _. split; [reflexivity |].
  destruct (existsb truthy results) eqn:E; cbn; rewrite ?E, ?app_nil_r; repeat split;
    cbn [dispatch_results]; rewrite E; reflexivity.
Qed.

(** X9. A contextmenu dispatch at a coordinate that resolves calls the
    contextmenu chain, and a mouseover or mouseout dispatch the hover chain
    with [hovering] true or false, once, with props for the event. The
    dispatch answers true exactly when a handler that ran returned a truthy
    value, and calls [event.preventDefault] exactly when it answers true. It
    neither reads nor writes the map of handled click events. *)
Theorem default_is_prevented_exactly_when_captured :
  forall view event s eventPosition rpos,
    getPositionFromEvent view event = Some eventPosition ->
    doc_resolve (view_state view) (ep_pos eventPosition) = Ok rpos ->
    capturedWhenHandled Contextmenu ContextmenuArgs event s
      (handleDOMEvents_contextmenu getMarkRange view event s) /\
    capturedWhenHandled Hover
      (fun props => HoverArgs {| hover_props := props; hovering := true |}) event s
      (handleDOMEvents_mouseover getMarkRange view event s) /\
    capturedWhenHandled Hover
      (fun props => HoverArgs {| hover_props := props; hovering := false |}) event s
      (handleDOMEvents_mouseout getMarkRange view event s).
Proof.
  intros view event s eventPosition rpos Hposition Hresolve.
  unfold handleDOMEvents_contextmenu, handleDOMEvents_mouseover, handleDOMEvents_mouseout.
  split; [| split].
  - apply (mouse_dispatch_captured Contextmenu ContextmenuArgs view event s eventPosition
             rpos Hposition Hresolve).
  - apply (mouse_dispatch_captured Hover
             (fun props => HoverArgs {| hover_props := props; hovering := true |})
             view event s eventPosition rpos Hposition Hresolve).
  - apply (mouse_dispatch_captured Hover
             (fun props => HoverArgs {| hover_props := props; hovering := false |})
             view event s eventPosition rpos Hposition Hresolve).
Qed.

Lemma mouse_dispatch_repeatable key mk view event s eventPosition rpos :
  getPositionFromEvent view event = Some eventPosition ->
  doc_resolve (view_state view) (ep_pos eventPosition) = Ok rpos ->
  repeatable
    (createMouseEventHandler getMarkRange
       (fun props => let* r := options key (mk props) in ret (r || false)) view event) s.
Proof.
  intros Hposition Hresolve. unfold repeatable.
  pose proof (mouse_dispatch_effect key mk view event s eventPosition rpos Hposition
                Hresolve) as Hfirst.
  cbv zeta in Hfirst.
  set (props := propsFor view event
                  (if ep_inside eventPosition >? -1 then nodesOf rpos else [])
                  (if ep_inside eventPosition >? -1
                   then collectMarkRanges getMarkRange rpos (marks rpos) else [])) in *.
  set (outcome := callHandlers (policyOf key) (handlersFor key (mappedHandlers s))
                    (mk props)) in *.
  set (d := {| dispatch_key := key; dispatch_args := mk props;
               dispatch_results := fst outcome |}) in *.
  destruct (snd outcome) eqn:E.
  - set (s1 := set_defaultPrevented (defaultPrevented s ++ [event_id event])
                 (set_dispatched (dispatched s ++ [d]) s)) in *.
    pose proof (mouse_dispatch_effect key mk view event s1 eventPosition rpos Hposition
                  Hresolve) as Hsecond.
    cbv zeta in Hsecond. fold props in Hsecond.
    change (mappedHandlers s1) with (mappedHandlers s) in Hsecond.
    fold outcome in Hsecond. fold d in Hsecond. rewrite E in Hsecond.
    eexists true, s1, _, d. split; [exact Hfirst |]. split; [exact Hsecond |].
    cbn. rewrite <- app_assoc. reflexivity.
  - set (s1 := set_dispatched (dispatched s ++ [d]) s) in *.
    pose proof (mouse_dispatch_effect key mk view event s1 eventPosition rpos Hposition
                  Hresolve) as Hsecond.
    cbv zeta in Hsecond. fold props in Hsecond.
    change (mappedHandlers s1) with (mappedHandlers s) in Hsecond.
    fold outcome in Hsecond. fold d in Hsecond. rewrite E in Hsecond.
    eexists false, s1, _, d. split; [exact Hfirst |]. split; [exact Hsecond |].
    cbn. rewrite <- app_assoc. reflexivity.
Qed.

(** X10. Hover and contextmenu are not deduplicated: the same event object
    delivered a second time calls the chain again, with the same arguments
    and the same results, and gets the same answer. *)
Theorem mouse_dispatch_repeats_for_the_same_event :
  forall view event s eventPosition rpos,
    getPositionFromEvent view event = Some eventPosition ->
    doc_resolve (view_state view) (ep_pos eventPosition) = Ok rpos ->
    repeatable (handleDOMEvents_contextmenu getMarkRange view event) s /\
    repeatable (handleDOMEvents_mouseover getMarkRange view event) s /\
    repeatable (handleDOMEvents_mouseout getMarkRange view event) s.
Proof.
  intros view event s eventPosition rpos Hposition Hresolve.
  unfold handleDOMEvents_contextmenu, handleDOMEvents_mouseover, handleDOMEvents_mouseout.
  split; [| split].
  - apply (mouse_dispatch_repeatable Contextmenu ContextmenuArgs view event s eventPosition
             rpos Hposition Hresolve).
  - apply (mouse_dispatch_repeatable Hover
             (fun props => HoverArgs {| hover_props := props; hovering := true |})
             view event s eventPosition rpos Hposition Hresolve).
  - apply (mouse_dispatch_repeatable Hover
             (fun props => HoverArgs {| hover_props := props; hovering := false |})
             view event s eventPosition rpos Hposition Hresolve).
Qed.

End FurtherMouse.

(** ** Lookups, continued *)

Lemma findNode_first (pre : list NodeWithPosition) entry n post type :
  Forall (fun e => exists m, nwp_node e = Some m /\ node_type m <> type) pre ->
  nwp_node entry = Some n ->
  node_type n = type ->
  findNode (pre ++ entry :: post) type = Ok (Some entry).
Proof.
  intros Hpre Hentry Htype. induction Hpre as [| e pre (m & Hm & Hne) _ IH]; simpl.
  - rewrite Hentry. rewrite decide_True by exact Htype. reflexivity.
  - rewrite Hm. rewrite decide_False by exact Hne. exact IH.
Qed.

(** X11. [getNode] of hover and contextmenu returns the innermost entry of the
    nodes sequence whose node has the type asked for, and its [isRoot] is true
    exactly when that entry is the first one, the directly hit node. *)
Theorem getNode_returns_the_innermost_match :
  forall sch ref type (pre : list NodeWithPosition) entry n post,
    lookupType (schema_nodes sch) ref = Some type ->
    Forall (fun e => exists m, nwp_node e = Some m /\ node_type m <> type) pre ->
    nwp_node entry = Some n ->
    node_type n = type ->
    getNodeIn sch (pre ++ entry :: post) ref =
    Ok (Some {| found_node := Some n; found_pos := nwp_pos entry;
                isRoot := match pre with [] => true | _ :: _ => false end |}).
Proof.
  intros sch ref type pre entry n post Hlookup Hpre Hentry Htype.
  unfold getNodeIn. rewrite Hlookup. simpl.
  rewrite (findNode_first pre entry n post type Hpre Hentry Htype). simpl.
  unfold isRootOf. destruct pre as [| first rest]; simpl.
  - rewrite Hentry. simpl. unfold node_eq.
    rewrite bool_decide_eq_true_2 by reflexivity. reflexivity.
  - inversion Hpre as [| ? ? (m & Hm & Hne) _]; subst.
    rewrite Hm, Hentry. simpl. unfold node_eq.
    rewrite bool_decide_eq_false_2 by (intros ->; apply Hne; reflexivity).
    reflexivity.
Qed.

(** X13. [getMark], where it is not the no-op, returns the first range of the
    list whose mark has the type asked for; whatever it returns is a range of
    the list with that type. *)
Theorem getMark_returns_the_first_range_of_the_type :
  forall sch ref type,
    lookupType (schema_marks sch) ref = Some type ->
    (forall (pre : list GetMarkRange) r post,
       Forall (fun r' => mark_type (range_mark r') <> type) pre ->
       mark_type (range_mark r) = type ->
       getMarkIn sch (pre ++ r :: post) ref = Ok (Some r)) /\
    (forall ranges r,
       getMarkIn sch ranges ref = Ok (Some r) ->
       In r ranges /\ mark_type (range_mark r) = type).
Proof.
  intros sch ref type Hlookup. split.
  - intros pre r post Hpre Hr. unfold getMarkIn. rewrite Hlookup. simpl. f_equal.
    unfold findMarkRange. induction Hpre as [| r' pre Hr' _ IH]; simpl.
    + rewrite bool_decide_eq_true_2 by exact Hr. reflexivity.
    + rewrite bool_decide_eq_false_2 by exact Hr'. exact IH.
  - intros ranges r. unfold getMarkIn. rewrite Hlookup. simpl. intros H.
    injection H as H. unfold findMarkRange in H. apply find_some in H.
    destruct H as (Hin & Hdec). apply bool_decide_eq_true_1 in Hdec. auto.
Qed.

Section FurtherLookups.

Variable getMarkRange : ResolvedPos -> MarkType -> option GetMarkRange.

(** X14. The mark ranges handed to the handlers are the defined results of
    [getMarkRange] for the marks at the position, in their order: a mark
    without a range is skipped, so there are at most as many ranges as
    marks. *)
Theorem mark_ranges_are_those_of_the_marks :
  forall rpos ms,
    (forall r,
       In r (collectMarkRanges getMarkRange rpos ms) <->
       exists m, In m ms /\ getMarkRange rpos (mark_type m) = Some r) /\
    (length (collectMarkRanges getMarkRange rpos ms) <= length ms)%nat /\
    ((forall m, In m ms -> is_Some (getMarkRange rpos (mark_type m))) ->
     length (collectMarkRanges getMarkRange rpos ms) = length ms).
Proof.
  intros rpos ms. induction ms as [| m ms (IHin & IHlen & IHall)]; simpl.
  - split; [| split; [lia | reflexivity]].
    intros r. split; [intros [] | intros (m & [] & _)].
  - destruct (getMarkRange rpos (mark_type m)) as [r0 |] eqn:E.
    + split; [| split].
      * intros r. simpl. rewrite IHin. split.
        -- intros [<- | (m' & Hin & Hm')]; [exists m; auto | exists m'; auto].
        -- intros (m' & [<- | Hin] & Hm'); [left; congruence | right; exists m'; auto].
      * simpl. lia.
      * intros Hall. simpl. rewrite IHall by (intros m' Hm'; apply Hall; auto). reflexivity.
    + split; [| split].
      * intros r. rewrite IHin. split.
        -- intros (m' & Hin & Hm'). exists m'. auto.
        -- intros (m' & [<- | Hin] & Hm'); [congruence | exists m'; auto].
      * lia.
      * intros Hall. destruct (Hall m) as [x Hx]; [auto | congruence].
Qed.

(** X12. At the end of a container, where no node follows the position, the
    first entry of the nodes sequence has no node, and [getNode] of hover and
    contextmenu throws a [TypeError] for every type that passes the schema
    check, by name or as a type object, instead of finding the container. *)
Theorem getNode_throws_where_no_node_follows :
  forall fn view event s eventPosition rpos,
    getPositionFromEvent view event = Some eventPosition ->
    doc_resolve (view_state view) (ep_pos eventPosition) = Ok rpos ->
    ep_inside eventPosition > -1 ->
    nodeAfter rpos = None ->
    exists props,
      createMouseEventHandler getMarkRange fn view event s =
        bind (fn props) (capture event) s /\
      (forall ref type,
         lookupType (schema_nodes (schema (view_state view))) ref = Some type ->
         props_getNode props ref =
         Throw (TypeError "Cannot read properties of undefined (reading 'type')")).
Proof.
  intros fn view event s eventPosition rpos Hposition Hresolve Hinside Hafter.
  assert (Hin : (ep_inside eventPosition >? -1) = true) by (apply Z.gtb_lt; lia).
  eexists. split.
  { rewrite (createMouseEventHandler_run getMarkRange fn view event s eventPosition rpos
               Hposition Hresolve).
    rewrite Hin. reflexivity. }
  intros ref type Hlookup.
  cbn [propsFor props_getNode]. unfold getNodeIn. rewrite Hlookup. simpl.
  rewrite Hafter. reflexivity.
Qed.

(** X15. [getNode] of a click state knows one node only, the one the call is
    for: it returns something exactly when the type asked for is the type of
    that node, and what it returns is the [nodeWithPosition] of the state. A
    type object skips the schema check and never faults. *)
Theorem click_getNode_knows_its_own_node_only :
  forall view pos nd nodePos event direct_ s rpos,
    doc_resolve (currentState (store s)) pos = Ok rpos ->
    exists r s' clickState results earlier,
      handleClickOn getMarkRange view pos nd nodePos event direct_ s = (Ok r, s') /\
      dispatched s' =
        earlier
        ++ [{| dispatch_key := Click; dispatch_args := ClickArgs event clickState;
               dispatch_results := results |}] /\
      nodeWithPosition clickState = {| nwp_node := Some nd; nwp_pos := nodePos |} /\
      (forall ref found,
         getNode clickState ref = Ok (Some found) <->
         found = nodeWithPosition clickState /\
         lookupType (schema_nodes (schema (currentState (store s)))) ref =
           Some (node_type nd)) /\
      (forall type,
         getNode clickState (ByType type) =
         Ok (if decide (type = node_type nd) then Some (nodeWithPosition clickState)
             else None)).
Proof.
  intros view pos nd nodePos event direct_ s rpos Hresolve.
  destruct (handleClickOn_run getMarkRange view pos nd nodePos event direct_ s rpos Hresolve)
    as (r & s' & clickState & Hrun & Hlog & _ & _ & _ & _ & _ & _ & _ & Hnwp & HgetNode).
  eexists r, s', clickState, _, _. split; [exact Hrun |].
  split; [rewrite Hlog, app_assoc; reflexivity |].
  split; [exact Hnwp |]. split.
  - intros ref found. rewrite HgetNode, Hnwp.
    destruct (lookupType (schema_nodes (schema (currentState (store s)))) ref)
      as [type |]; simpl.
    + destruct (decide (type = node_type nd)) as [-> | Hne].
      * split; [intros H; injection H as <-; auto | intros (-> & _); reflexivity].
      * split; [discriminate | intros (_ & H); congruence].
    + split; [discriminate | intros (_ & H); discriminate].
  - intros type. rewrite HgetNode, Hnwp. reflexivity.
Qed.

(** X16. A hover inside content and the first call for a click at the same
    resolved position hand out the same mark ranges, and over the same schema
    their [getMark] answer alike. *)
Theorem hover_and_click_agree_on_marks :
  forall fn view event eventPosition clickView pos nd nodePos click direct_ s rpos,
    getPositionFromEvent view event = Some eventPosition ->
    ep_inside eventPosition > -1 ->
    doc_resolve (view_state view) (ep_pos eventPosition) = Ok rpos ->
    doc_resolve (currentState (store s)) pos = Ok rpos ->
    eventMap s !! event_id click = None ->
    exists props r s' clickState results earlier,
      createMouseEventHandler getMarkRange fn view event s =
        bind (fn props) (capture event) s /\
      handleClickOn getMarkRange clickView pos nd nodePos click direct_ s = (Ok r, s') /\
      dispatched s' =
        earlier
        ++ [{| dispatch_key := Click; dispatch_args := ClickArgs click clickState;
               dispatch_results := results |}] /\
      markRanges clickState = props_marks props /\
      (schema (currentState (store s)) = schema (view_state view) ->
       forall ref, getMark clickState ref = props_getMark props ref).
Proof.
  intros fn view event eventPosition clickView pos nd nodePos click direct_ s rpos
    Hposition Hinside Hresolve Hresolve' Hfresh.
  assert (Hin : (ep_inside eventPosition >? -1) = true) by (apply Z.gtb_lt; lia).
  destruct (handleClickOn_run getMarkRange clickView pos nd nodePos click direct_ s rpos
              Hresolve')
    as (r & s' & clickState & Hrun & Hlog & _ & _ & _ & HgetMark & Hranges & _).
  rewrite Hfresh in HgetMark, Hranges.
  rewrite bool_decide_eq_false_2 in HgetMark, Hranges by (intros [x Hx]; discriminate).
  eexists _, r, s', clickState, _, _. split.
  { rewrite (createMouseEventHandler_run getMarkRange fn view event s eventPosition rpos
               Hposition Hresolve).
    rewrite Hin. reflexivity. }
  split; [exact Hrun |]. split; [rewrite Hlog, app_assoc; reflexivity |].
  split.
  - rewrite Hranges. reflexivity.
  - intros Hschema ref. rewrite HgetMark.
    cbn [createClickMarkState ccm_handled ccm_state ccm_rpos ccm_view cm_getMark
      propsFor props_getMark].
    rewrite Hschema. reflexivity.
Qed.

End FurtherLookups.

(** ** Registration, continued *)

Lemma handlersFor_app key (l1 l2 : list (HandlerKey * Handler)) :
  handlersFor key (l1 ++ l2) = handlersFor key l1 ++ handlersFor key l2.
Proof. unfold handlersFor. rewrite List.filter_app, map_app. reflexivity. Qed.

Lemma handlersFor_flat_map key (exts : list AnyExtension) :
  handlersFor key (flat_map exposedHandlers exts) =
  flat_map (fun extension => handlersFor key (exposedHandlers extension)) exts.
Proof.
  induction exts as [| extension rest IH]; simpl; [reflexivity |].
  rewrite handlersFor_app, IH. reflexivity.
Qed.

Lemma onView_eq s :
  managerSettings_exclude_clickHandler (store s) = false ->
  onView s =
  (Ok tt,
   set_mappedHandlers
     (mappedHandlers s ++ flat_map exposedHandlers (extensions (store s))) s).
Proof.
  intros H. unfold onView, bind, read. rewrite H. apply forEach_extension.
Qed.

(** X17. After [onView] the chain of a key holds, whatever their order, the
    handlers it held before together with the handlers that the extensions
    with [createEventHandlers] and without the [clickHandler] exclusion expose
    for that key, each as often as it is exposed; a handler exposed for
    another key does not join the chain. With the exclusion of the manager
    settings the chain is as it was. *)
Theorem onView_adds_to_every_chain :
  forall s key,
    (managerSettings_exclude_clickHandler (store s) = true ->
     handlersFor key (mappedHandlers (after onView s)) =
     handlersFor key (mappedHandlers s)) /\
    (managerSettings_exclude_clickHandler (store s) = false ->
     Permutation
       (handlersFor key (mappedHandlers (after onView s)))
       (handlersFor key (mappedHandlers s)
        ++ flat_map (fun extension => handlersFor key (exposedHandlers extension))
             (extensions (store s)))).
Proof.
  intros s key. split; intros H.
  - unfold after, onView, bind, read. rewrite H. reflexivity.
  - unfold after. rewrite (onView_eq s H). simpl.
    rewrite handlersFor_app, handlersFor_flat_map. reflexivity.
Qed.

(** X18. [onView] does not check what is registered already: run a second
    time it registers every exposed handler a second time, so that a chain
    then calls each of them twice. *)
Theorem onView_twice_registers_twice :
  forall s,
    managerSettings_exclude_clickHandler (store s) = false ->
    let exposed := flat_map exposedHandlers (extensions (store s)) in
    after onView (after onView s) =
    set_mappedHandlers (mappedHandlers s ++ exposed ++ exposed) s.
Proof.
  intros s H exposed. unfold after. rewrite (onView_eq s H). simpl.
  rewrite onView_eq by exact H. simpl. fold exposed.
  unfold set_mappedHandlers. simpl. rewrite <- app_assoc. reflexivity.
Qed.

(** * The properties on the sample document *)

Import Sample.

(** Three calls for one click on the bold text: the clickMark chain once, then
    the click chain three times, [direct] on the first call only. *)
Lemma click_chain_on_three_levels :
  map target_direct threeLevels = [true; false; false] /\
  exists rs s' added,
    handleClickOnEach markRange view 2 overText threeLevels editor = (Ok rs, s') /\
    dispatched s' = dispatched editor ++ added /\
    map dispatch_key added = ClickMark :: repeat Click (length threeLevels) /\
    length (callsOf Click added) = length threeLevels /\
    length (callsOf ClickMark added) = 1%nat /\
    clickDirects added = map target_direct threeLevels.
Proof.
  split; [reflexivity |].
  apply (click_chain_every_call_clickMark_once markRange view 2 overText threeLevels editor
           startOfText); [reflexivity | reflexivity | discriminate].
Defined.

(** The chain at the start of the text begins with the text node and ends
    with the blockquote; below the content there is no chain. *)
Lemma nodes_chain_at_start_of_text :
  (exists props,
     createMouseEventHandler markRange (fun _ => ret false) view overText editor =
       bind ((fun _ => ret false) props) (capture overText) editor /\
     length (props_nodes props) = (depth startOfText + 1)%nat /\
     (exists innermost,
        props_nodes props !! 0%nat = Some innermost /\
        before startOfText (depth startOfText + 1) = Ok (nwp_pos innermost) /\
        nwp_pos innermost = rp_pos startOfText /\
        nwp_node innermost = Some textNode) /\
     (forall i,
        (1 <= i <= depth startOfText)%nat ->
        exists n b,
          node startOfText (depth startOfText + 1 - i) = Some n /\
          before startOfText (depth startOfText + 1 - i) = Ok b /\
          props_nodes props !! i = Some {| nwp_node := Some n; nwp_pos := b |}) /\
     (exists n b,
        node startOfText 1 = Some n /\
        before startOfText 1 = Ok b /\
        props_nodes props !! (length (props_nodes props) - 1)%nat =
          Some {| nwp_node := Some n; nwp_pos := b |})) /\
  (exists props,
     createMouseEventHandler markRange (fun _ => ret false) view belowContent editor =
       bind ((fun _ => ret false) props) (capture belowContent) editor /\
     props_nodes props = []).
Proof.
  split.
  - destruct (nodes_chain_ends_at_depth_one markRange (fun _ => ret false) view overText
                editor {| ep_pos := 2; ep_inside := 1 |} startOfText eq_refl eq_refl)
      as (props & Hrun & Hinside & _).
    destruct (Hinside eq_refl)
      as (Hlen & (innermost & Hfirst & Hbefore & Hpos & Hnode) & Hlevels & Hlast).
    exists props. split; [exact Hrun |]. split; [exact Hlen |]. split; [| split].
    + exists innermost. split; [exact Hfirst |]. split; [exact Hbefore |].
      split; [exact Hpos |]. apply Hnode. reflexivity.
    + exact Hlevels.
    + apply Hlast. apply le_S, le_n.
  - destruct (nodes_chain_ends_at_depth_one markRange (fun _ => ret false) view belowContent
                editor {| ep_pos := 9; ep_inside := -1 |} endOfDoc eq_refl eq_refl)
      as (props & Hrun & _ & Houtside).
    exists props. split; [exact Hrun |]. apply Houtside. discriminate.
Defined.

(** A contextmenu over the text: the last of the three nodes is the
    blockquote, not the document. A contextmenu below the content: the
    position resolves at depth 0 and there is no node at all. *)
Lemma nodes_chain_last_is_not_the_root :
  (getPositionFromEvent view overText = Some {| ep_pos := 2; ep_inside := 1 |} /\
   doc_resolve (view_state view) 2 = Ok startOfText /\
   rp_root startOfText = docNode /\
   map (fun d => props_nodes <$> mousePropsOf d)
     (dispatched (after (handleDOMEvents_contextmenu markRange view overText) editor)) =
   [Some [ {| nwp_node := Some textNode; nwp_pos := 2 |};
           {| nwp_node := Some paragraphNode; nwp_pos := 1 |};
           {| nwp_node := Some blockquoteNode; nwp_pos := 0 |} ]] /\
   blockquoteNode <> docNode) /\
  (getPositionFromEvent view belowContent = Some {| ep_pos := 9; ep_inside := -1 |} /\
   doc_resolve (view_state view) 9 = Ok endOfDoc /\
   depth endOfDoc = 0%nat /\
   map (fun d => props_nodes <$> mousePropsOf d)
     (dispatched (after (handleDOMEvents_contextmenu markRange view belowContent) editor)) =
   [Some []]).
Proof. repeat split; discriminate. Qed.

(** A mouseup outside the editor, after a mousedown inside and a mouseleave. *)
Lemma isInteracting_after_leaving :
  reachable markRange pressedThenLeft /\
  mousedown pressedThenLeft = true /\
  isInteracting (after (deliver markRange (MouseupInside pastText)) pressedThenLeft) = false /\
  isInteracting (after (deliver markRange (MouseupOutside offPage)) pressedThenLeft) = false.
Proof.
  assert (H : reachable markRange pressedThenLeft).
  { unfold pressedThenLeft, editor.
    apply reachable_deliver, reachable_deliver, reachable_onView, reachable_new. }
  split; [exact H |]. split; [reflexivity |].
  apply (proj2 (proj2 (proj2 (isInteracting_transitions markRange))) pressedThenLeft), H.
Defined.

(** The click chain of the busy editor stops at its second handler; its
    clickMark chain runs both handlers; a first click call runs the clickMark
    chain and then the click chain. *)
Lemma dispatch_policies_on_busy_editor :
  let args := MouseArgs overText in
  options Click args busyEditor =
    (Ok true,
     set_dispatched
       (dispatched busyEditor
        ++ [recorded Click args ([always ReturnsUndefined] ++ [always ReturnsTrue])])
       busyEditor) /\
  options ClickMark args busyEditor =
    (Ok (existsb (fun h => truthy (h args)) (handlersFor ClickMark (mappedHandlers busyEditor))),
     set_dispatched
       (dispatched busyEditor
        ++ [recorded ClickMark args (handlersFor ClickMark (mappedHandlers busyEditor))])
       busyEditor) /\
  exists r s' markState clickState results,
    handleClickOn markRange view 2 textNode 2 overText true busyEditor = (Ok r, s') /\
    dispatched s' =
      dispatched busyEditor
      ++ [recorded ClickMark (ClickMarkArgs overText markState)
            (handlersFor ClickMark (mappedHandlers busyEditor));
          {| dispatch_key := Click; dispatch_args := ClickArgs overText clickState;
             dispatch_results := results |}].
Proof.
  intros args.
  destruct (dispatch_policies markRange) as (Hearly & Hall & Hclick).
  split; [| split].
  - destruct (Hearly Click) as (_ & Hstop & _); [simpl; tauto |].
    apply (Hstop args busyEditor [always ReturnsUndefined] (always ReturnsTrue)
             [always ReturnsFalse]).
    + reflexivity.
    + repeat constructor.
    + reflexivity.
  - destruct (Hall ClickMark) as (_ & Hrun); [simpl; tauto |].
    apply Hrun.
  - apply (Hclick view 2 textNode 2 overText true busyEditor startOfText);
      reflexivity.
Defined.

(** The end of the paragraph, inside content: the innermost entry has no
    node, and the paragraph, the container of the position, is the second
    entry. *)
Lemma innermost_entry_at_end_of_paragraph :
  getPositionFromEvent view pastText = Some {| ep_pos := 7; ep_inside := 1 |} /\
  doc_resolve (view_state view) 7 = Ok endOfParagraph /\
  nodeAfter endOfParagraph = None /\
  node endOfParagraph (depth endOfParagraph) = Some paragraphNode /\
  node endOfParagraph (depth endOfParagraph + 1) = None /\
  map (fun d => props_nodes <$> mousePropsOf d)
    (dispatched (after (handleDOMEvents_contextmenu markRange view pastText) editor)) =
  [Some [ {| nwp_node := None; nwp_pos := 7 |};
          {| nwp_node := Some paragraphNode; nwp_pos := 1 |};
          {| nwp_node := Some blockquoteNode; nwp_pos := 0 |} ]].
Proof. repeat split. Qed.

(** Lookups on the sample document. *)
Lemma lookups_on_sample :
  exists props,
    createMouseEventHandler markRange (fun _ => ret false) view overText editor =
      bind ((fun _ => ret false) props) (capture overText) editor /\
    (forall name,
       schema_nodes sampleSchema !! name = None ->
       props_getNode props (ByName name) = Throw nodeFault) /\
    (forall name type,
       schema_nodes sampleSchema !! name = Some type ->
       Forall (fun entry => exists n, nwp_node entry = Some n /\ node_type n <> type)
         (props_nodes props) ->
       props_getNode props (ByName name) = Ok None) /\
    (forall name,
       schema_marks sampleSchema !! name = None ->
       props_getMark props (ByName name) = Throw (markFault name)) /\
    (forall name type,
       schema_marks sampleSchema !! name = Some type ->
       Forall (fun r => mark_type (range_mark r) <> type) (props_marks props) ->
       props_getMark props (ByName name) = Ok None).
Proof.
  apply (proj2 (proj2 (lookups_fault_on_missing_types markRange))
           (fun _ => ret false) view overText editor {| ep_pos := 2; ep_inside := 1 |}
           startOfText); reflexivity.
Defined.

(** The second call for a click: [getMark] with a name that the schema does
    not have returns [undefined]. *)
Lemma getMark_of_a_later_call_does_not_fault :
  schema_marks (schema (currentState (store editor))) !! "ghost" = None /\
  (fun st => getMark st (ByName "ghost")) <$>
    clickStates
      (dispatched (after (handleClickOnEach markRange view 2 overText threeLevels) editor))
      !! 1%nat
  = Some (Ok None).
Proof. split; reflexivity. Qed.

(** Off the page no handler is called; below the content the handlers are
    called with empty lists. *)
Lemma hits_off_page_and_below_content :
  (handleDOMEvents_mouseover markRange view offPage editor = (Ok false, editor) /\
   handleDOMEvents_mouseout markRange view offPage editor = (Ok false, editor) /\
   handleDOMEvents_contextmenu markRange view offPage editor = (Ok false, editor)) /\
  (let props := propsFor view belowContent [] [] in
   let over := HoverArgs {| hover_props := props; hovering := true |} in
   let out := HoverArgs {| hover_props := props; hovering := false |} in
   let menu := ContextmenuArgs props in
   props_nodes props = [] /\
   props_marks props = [] /\
   (exists s',
      handleDOMEvents_mouseover markRange view belowContent editor =
        (Ok (existsb (fun h => truthy (h over)) (handlersFor Hover (mappedHandlers editor))),
         s') /\
      dispatched s' =
        dispatched editor ++ [recorded Hover over (handlersFor Hover (mappedHandlers editor))]) /\
   (exists s',
      handleDOMEvents_mouseout markRange view belowContent editor =
        (Ok (existsb (fun h => truthy (h out)) (handlersFor Hover (mappedHandlers editor))),
         s') /\
      dispatched s' =
        dispatched editor ++ [recorded Hover out (handlersFor Hover (mappedHandlers editor))]) /\
   (exists s',
      handleDOMEvents_contextmenu markRange view belowContent editor =
        (Ok (existsb (fun h => truthy (h menu))
               (handlersFor Contextmenu (mappedHandlers editor))),
         s') /\
      dispatched s' =
        dispatched editor
        ++ [recorded Contextmenu menu (handlersFor Contextmenu (mappedHandlers editor))])).
Proof.
  split.
  - apply (proj1 (unresolved_and_outside_hits markRange) view offPage editor). reflexivity.
  - apply (proj2 (unresolved_and_outside_hits markRange) view belowContent editor 9 endOfDoc);
      reflexivity.
Defined.

(** [onView] on the sample store: nothing with the manager's exclusion, and
    the handlers of the bold and mention extensions without it. *)
Lemma onView_on_sample_store :
  onView (newExtension (sampleStore true)) = (Ok tt, newExtension (sampleStore true)) /\
  onView (newExtension (sampleStore false)) =
    (Ok tt,
     set_mappedHandlers
       (mappedHandlers (newExtension (sampleStore false))
        ++ flat_map exposedHandlers (extensions (store (newExtension (sampleStore false)))))
       (newExtension (sampleStore false))) /\
  map fst (flat_map exposedHandlers (extensions (sampleStore false))) =
    [ClickMark; Click; Hover; Contextmenu].
Proof.
  split; [| split].
  - apply (proj1 (onView_registers_exposed_handlers (newExtension (sampleStore true)))).
    reflexivity.
  - apply (proj2 (onView_registers_exposed_handlers (newExtension (sampleStore false)))).
    reflexivity.
  - reflexivity.
Defined.

(** After the first call for a click the state of the next call is without
    marks; over the three calls only the first state has the bold range. *)
Lemma later_calls_on_three_levels :
  (exists r s' clickState results,
     handleClickOn markRange view 2 paragraphNode 1 overText false clickedOnce = (Ok r, s') /\
     dispatched s' =
       dispatched clickedOnce
       ++ [{| dispatch_key := Click; dispatch_args := ClickArgs overText clickState;
              dispatch_results := results |}] /\
     markRanges clickState = [] /\
     (forall markType, getMark clickState markType = Ok None)) /\
  map markRanges
    (clickStates
       (dispatched (after (handleClickOnEach markRange view 2 overText threeLevels) editor)))
  = [[{| range_from := 2; range_to := 7; range_mark := bold; range_text := "hello" |}];
     []; []].
Proof.
  split.
  - apply (proj1 (later_calls_have_no_marks markRange) view 2 paragraphNode 1 overText false
             clickedOnce startOfText).
    + reflexivity.
    + exists true. reflexivity.
  - reflexivity.
Defined.

(** * The further properties on the sample document *)

Lemma pressedThenLeft_is_reachable : reachable markRange pressedThenLeft.
Proof.
  unfold pressedThenLeft, editor.
  apply reachable_deliver, reachable_deliver, reachable_onView, reachable_new.
Qed.

Lemma one_listener_after_leaving :
  mousedown pressedThenLeft = true /\
  documentMouseupOnce pressedThenLeft =
    if mousedown pressedThenLeft then 1%nat else 0%nat.
Proof.
  split; [reflexivity |].
  apply (one_listener_while_pressed markRange pressedThenLeft pressedThenLeft_is_reachable).
Defined.

Lemma release_after_leaving_refreshes_once :
  emptyUpdates (after (deliver markRange (MouseupInside pastText)) pressedThenLeft) =
    (emptyUpdates pressedThenLeft + (if mousedown pressedThenLeft then 1 else 0))%nat /\
  emptyUpdates (after (deliver markRange (MouseupOutside offPage)) pressedThenLeft) =
    (emptyUpdates pressedThenLeft + (if mousedown pressedThenLeft then 1 else 0))%nat.
Proof.
  apply (release_refreshes_once markRange pressedThenLeft pastText offPage
           pressedThenLeft_is_reachable).
Defined.

Lemma click_leaves_interaction_alone :
  let ev := ClickInside view 2 overText threeLevels in
  mousedown (after (deliver markRange ev) pressedThenLeft) = mousedown pressedThenLeft /\
  mouseover (after (deliver markRange ev) pressedThenLeft) = mouseover pressedThenLeft /\
  isInteracting (after (deliver markRange ev) pressedThenLeft) =
    isInteracting pressedThenLeft.
Proof.
  apply (other_events_leave_interaction_alone markRange
           (ClickInside view 2 overText threeLevels) pressedThenLeft).
  reflexivity.
Defined.

Lemma click_on_busy_editor_is_handled :
  exists r s' added,
    handleClickOn markRange view 2 textNode 2 overText true busyEditor = (Ok r, s') /\
    dispatched s' = dispatched busyEditor ++ added /\
    r = existsb (fun d => existsb truthy (dispatch_results d)) added /\
    eventMap s' !! event_id overText = Some true /\
    defaultPrevented s' = defaultPrevented busyEditor /\
    emptyUpdates s' = emptyUpdates busyEditor.
Proof.
  apply (click_is_handled_when_a_handler_says_so markRange view 2 textNode 2 overText true
           busyEditor startOfText).
  reflexivity.
Defined.

Lemma two_clicks_on_sample :
  exists rs s1,
    handleClickOnEach markRange view 2 overText threeLevels editor = (Ok rs, s1) /\
    (event_id pastText <> event_id overText ->
     eventMap editor !! event_id pastText = None ->
     exists rs' s2 added,
       handleClickOnEach markRange view 7 pastText threeLevels s1 = (Ok rs', s2) /\
       dispatched s2 = dispatched s1 ++ added /\
       map dispatch_key added = ClickMark :: repeat Click (length threeLevels)) /\
    (event_id pastText = event_id overText ->
     exists rs' s2 added,
       handleClickOnEach markRange view 7 pastText threeLevels s1 = (Ok rs', s2) /\
       dispatched s2 = dispatched s1 ++ added /\
       map dispatch_key added = repeat Click (length threeLevels)).
Proof.
  apply (each_click_event_runs_clickMark_once markRange view 2 7 overText pastText
           threeLevels threeLevels editor startOfText endOfParagraph);
    [reflexivity | reflexivity | discriminate | discriminate].
Defined.

Lemma faults_on_sample :
  handleClickOn markRange view 50 textNode 2 overText true editor =
    (Throw (RangeError "Position out of range"), editor) /\
  handleDOMEvents_contextmenu markRange staleView overText editor =
    (Throw (RangeError "Position out of range"), editor).
Proof.
  split.
  - apply (proj1 (unresolved_position_faults_before_any_effect markRange)). reflexivity.
  - unfold handleDOMEvents_contextmenu.
    eapply (proj2 (unresolved_position_faults_before_any_effect markRange) _ staleView
              overText editor {| ep_pos := 50; ep_inside := 1 |}); reflexivity.
Defined.

Lemma hover_over_text_is_captured :
  capturedWhenHandled Contextmenu ContextmenuArgs overText editor
    (handleDOMEvents_contextmenu markRange view overText editor) /\
  capturedWhenHandled Hover
    (fun props => HoverArgs {| hover_props := props; hovering := true |}) overText editor
    (handleDOMEvents_mouseover markRange view overText editor) /\
  capturedWhenHandled Hover
    (fun props => HoverArgs {| hover_props := props; hovering := false |}) overText editor
    (handleDOMEvents_mouseout markRange view overText editor) /\
  fst (handleDOMEvents_mouseover markRange view overText editor) = Ok true /\
  defaultPrevented (after (handleDOMEvents_mouseover markRange view overText) editor) = [1%nat] /\
  fst (handleDOMEvents_contextmenu markRange view overText editor) = Ok false /\
  defaultPrevented (after (handleDOMEvents_contextmenu markRange view overText) editor) = [].
Proof.
  destruct (default_is_prevented_exactly_when_captured markRange view overText editor
              {| ep_pos := 2; ep_inside := 1 |} startOfText eq_refl eq_refl)
    as (H1 & H2 & H3).
  repeat split; assumption.
Defined.

Lemma hover_over_text_repeats :
  repeatable (handleDOMEvents_contextmenu markRange view overText) editor /\
  repeatable (handleDOMEvents_mouseover markRange view overText) editor /\
  repeatable (handleDOMEvents_mouseout markRange view overText) editor.
Proof.
  apply (mouse_dispatch_repeats_for_the_same_event markRange view overText editor
           {| ep_pos := 2; ep_inside := 1 |} startOfText); reflexivity.
Defined.

Lemma getNode_finds_the_paragraph :
  getNodeIn sampleSchema nodesAtStartOfText (ByName "paragraph") =
  Ok (Some {| found_node := Some paragraphNode; found_pos := 1; isRoot := false |}) /\
  getNodeIn sampleSchema nodesAtStartOfText (ByType textType) =
  Ok (Some {| found_node := Some textNode; found_pos := 2; isRoot := true |}).
Proof.
  split.
  - apply (getNode_returns_the_innermost_match sampleSchema (ByName "paragraph")
             paragraphType [ {| nwp_node := Some textNode; nwp_pos := 2 |} ]
             {| nwp_node := Some paragraphNode; nwp_pos := 1 |} paragraphNode
             [ {| nwp_node := Some blockquoteNode; nwp_pos := 0 |} ]).
    + reflexivity.
    + constructor; [| constructor].
      exists textNode. split; [reflexivity | discriminate].
    + reflexivity.
    + reflexivity.
  - apply (getNode_returns_the_innermost_match sampleSchema (ByType textType)
             textType [] {| nwp_node := Some textNode; nwp_pos := 2 |} textNode
             [ {| nwp_node := Some paragraphNode; nwp_pos := 1 |};
               {| nwp_node := Some blockquoteNode; nwp_pos := 0 |} ]).
    + reflexivity.
    + constructor.
    + reflexivity.
    + reflexivity.
Defined.

Lemma getNode_throws_past_the_text :
  exists props,
    createMouseEventHandler markRange (fun _ => ret false) view pastText editor =
      bind ((fun _ => ret false) props) (capture pastText) editor /\
    (forall ref type,
       lookupType (schema_nodes (schema (view_state view))) ref = Some type ->
       props_getNode props ref =
       Throw (TypeError "Cannot read properties of undefined (reading 'type')")).
Proof.
  apply (getNode_throws_where_no_node_follows markRange (fun _ => ret false) view pastText
           editor {| ep_pos := 7; ep_inside := 1 |} endOfParagraph);
    reflexivity.
Defined.

Lemma getMark_finds_the_bold_range :
  getMarkIn sampleSchema [italicRange; boldRange; boldRange] (ByName "bold") =
    Ok (Some boldRange) /\
  (forall ranges r,
     getMarkIn sampleSchema ranges (ByName "bold") = Ok (Some r) ->
     In r ranges /\ mark_type (range_mark r) = boldType).
Proof.
  destruct (getMark_returns_the_first_range_of_the_type sampleSchema (ByName "bold")
              boldType eq_refl) as (Hfirst & Hsound).
  split; [| exact Hsound].
  apply (Hfirst [italicRange] boldRange [boldRange]).
  - constructor; [discriminate | constructor].
  - reflexivity.
Defined.

Lemma mark_ranges_at_start_of_text :
  (forall r,
     In r (collectMarkRanges markRange startOfText (marks startOfText)) <->
     exists m, In m (marks startOfText) /\ markRange startOfText (mark_type m) = Some r) /\
  (length (collectMarkRanges markRange startOfText (marks startOfText))
   <= length (marks startOfText))%nat /\
  length (collectMarkRanges markRange startOfText (marks startOfText)) =
    length (marks startOfText).
Proof.
  destruct (mark_ranges_are_those_of_the_marks markRange startOfText (marks startOfText))
    as (Hin & Hle & Hall).
  split; [exact Hin |]. split; [exact Hle |].
  apply Hall. intros m [<- | []]. exists boldRange. reflexivity.
Defined.

Lemma click_getNode_on_the_text :
  exists r s' clickState results earlier,
    handleClickOn markRange view 2 textNode 2 overText true editor = (Ok r, s') /\
    dispatched s' =
      earlier
      ++ [{| dispatch_key := Click; dispatch_args := ClickArgs overText clickState;
             dispatch_results := results |}] /\
    nodeWithPosition clickState = {| nwp_node := Some textNode; nwp_pos := 2 |} /\
    (forall ref found,
       getNode clickState ref = Ok (Some found) <->
       found = nodeWithPosition clickState /\
       lookupType (schema_nodes (schema (currentState (store editor)))) ref =
         Some (node_type textNode)) /\
    (forall type,
       getNode clickState (ByType type) =
       Ok (if decide (type = node_type textNode) then Some (nodeWithPosition clickState)
           else None)).
Proof.
  apply (click_getNode_knows_its_own_node_only markRange view 2 textNode 2 overText true
           editor startOfText).
  reflexivity.
Defined.

Lemma hover_and_click_agree_at_start_of_text :
  exists props r s' clickState results earlier,
    createMouseEventHandler markRange (fun _ => ret false) view overText editor =
      bind ((fun _ => ret false) props) (capture overText) editor /\
    handleClickOn markRange view 2 textNode 2 pastText true editor = (Ok r, s') /\
    dispatched s' =
      earlier
      ++ [{| dispatch_key := Click; dispatch_args := ClickArgs pastText clickState;
             dispatch_results := results |}] /\
    markRanges clickState = props_marks props /\
    (schema (currentState (store editor)) = schema (view_state view) ->
     forall ref, getMark clickState ref = props_getMark props ref).
Proof.
  apply (hover_and_click_agree_on_marks markRange (fun _ => ret false) view overText
           {| ep_pos := 2; ep_inside := 1 |} view 2 textNode 2 pastText true editor
           startOfText); reflexivity.
Defined.

Lemma onView_adds_on_sample :
  Permutation
    (handlersFor Click (mappedHandlers (after onView busyEditorWithExtensions)))
    (handlersFor Click (mappedHandlers busyEditorWithExtensions)
     ++ flat_map (fun extension => handlersFor Click (exposedHandlers extension))
          (extensions (store busyEditorWithExtensions))) /\
  handlersFor Click (mappedHandlers (after onView (newExtension (sampleStore true)))) =
  handlersFor Click (mappedHandlers (newExtension (sampleStore true))).
Proof.
  split.
  - apply (proj2 (onView_adds_to_every_chain busyEditorWithExtensions Click)). reflexivity.
  - apply (proj1 (onView_adds_to_every_chain (newExtension (sampleStore true)) Click)).
    reflexivity.
Defined.

Lemma onView_twice_on_sample :
  let exposed := flat_map exposedHandlers (extensions (store (newExtension (sampleStore false)))) in
  after onView (after onView (newExtension (sampleStore false))) =
  set_mappedHandlers
    (mappedHandlers (newExtension (sampleStore false)) ++ exposed ++ exposed)
    (newExtension (sampleStore false)).
Proof.
  apply (onView_twice_registers_twice (newExtension (sampleStore false))). reflexivity.
Defined.
